(** * typeorm-graphql-loader: the selection parser and the query resolver

    A shallow embedding of [GraphQLInfoParser] (lib/GraphQLInfoParser.ts) and
    of [GraphQLQueryResolver], followed by the properties of the two that the
    specification states.

    Conventions of the embedding.
    - A JS object used as a dictionary ([Hash<T>], also a [Map]) is an
      association list of its own keys in insertion order.  A dictionary
      written [{}] also inherits the members of [Object.prototype]: the
      operator [in] and a read [h[k]] find them, [hasOwnProperty] and
      [Object.keys] do not.  A children map is taken to have no own key
      [hasOwnProperty]; the parser builds none.
    - The TypeORM [SelectQueryBuilder] is mutated in place and returned by each
      of its methods; it is modelled as the log of the calls made on it, and
      every function that receives it returns the new log.
    - A JS exception ends the evaluation; the log as it stood when the exception
      left the resolver is kept next to it. *)

From Stdlib Require Import List String Ascii NArith ZArith Bool Lia.
Import ListNotations.
Set Warnings "-register-all".
Open Scope string_scope.
Open Scope list_scope.

(** ** JS values and dictionaries *)

Definition Hash (T : Type) : Type := list (string * T).

(** [h[k]] at an own key [k], [m.get(k)]; [None] when [k] is no own key. *)
Fixpoint hash_get {T} (h : Hash T) (k : string) : option T :=
  match h with
  | [] => None
  | (k', v) :: h' => if String.eqb k' k then Some v else hash_get h' k
  end.

(** [h.hasOwnProperty(k)]: [k] is an own key of [h]. *)
Definition hash_in {T} (k : string) (h : Hash T) : bool :=
  match hash_get h k with Some _ => true | None => false end.

(** The names every object written [{}] inherits from [Object.prototype].
    Read through a dictionary they give a function (or, for [__proto__], the
    prototype itself): a truthy value that has no [children]. *)
Definition Object_prototype_members : list string :=
  ["constructor"; "__defineGetter__"; "__defineSetter__"; "hasOwnProperty";
   "__lookupGetter__"; "__lookupSetter__"; "isPrototypeOf";
   "propertyIsEnumerable"; "toString"; "valueOf"; "__proto__"; "toLocaleString"].

Definition inherited (k : string) : bool :=
  existsb (String.eqb k) Object_prototype_members.

(** [k in h], for a dictionary written [{}]: an own key or an inherited name. *)
Definition key_in {T} (k : string) (h : Hash T) : bool :=
  hash_in k h || inherited k.

(** [h[k] = v]: an existing key keeps its place, a new one goes last. *)
Fixpoint hash_set {T} (h : Hash T) (k : string) (v : T) : Hash T :=
  match h with
  | [] => [(k, v)]
  | (k', v') :: h' =>
      if String.eqb k' k then (k', v) :: h' else (k', v') :: hash_set h' k v
  end.

(** [Object.keys(h)] *)
Definition hash_keys {T} (h : Hash T) : list string := map fst h.

(** A value of type [any].  [Float raw] stands for [parseFloat(raw)]. *)
Inductive any : Type :=
| Undefined
| Null
| Bool (b : bool)
| Str (s : string)
| Num (z : Z)
| Float (raw : string)
| Obj (fields : list (string * any))
| Arr (items : list any).

(** A [number] used as a depth bound: an integer or [Infinity]. *)
Inductive number : Type :=
| Finite (z : Z)
| Infinity.

(** [depth < bound] *)
Definition number_lt (depth : Z) (bound : number) : bool :=
  match bound with
  | Finite m => Z.ltb depth m
  | Infinity => true
  end.

(** ** types.ts *)

Inductive Selection : Type := mkSelection {
  arguments : option (Hash any);
  children : option (Hash Selection)
}.

(** ** Exceptions *)

Inductive Error : Type :=
| MetadataNotFound (model : string)
| TypeError.

Inductive Completion : Type :=
| Returned
| Thrown (e : Error).

(** ** The TypeORM interfaces the resolver uses *)

Record ColumnMetadata := {
  col_propertyName : string;
  databaseName : string;
  isPrimary : bool
}.

Record EmbeddedMetadata := {
  emb_propertyName : string;
  emb_columns : list ColumnMetadata
}.

(** [inverseEntityTarget] is [relation.inverseEntityMetadata.target]. *)
Record RelationMetadata := {
  rel_propertyName : string;
  inverseEntityTarget : string
}.

Record EntityMetadata := {
  target : string;
  columns : list ColumnMetadata;
  embeddeds : list EmbeddedMetadata;
  relations : list RelationMetadata
}.

Class HasPropertyName (A : Type) := propertyName : A -> string.
#[export] Instance ColumnMetadata_name : HasPropertyName ColumnMetadata := col_propertyName.
#[export] Instance EmbeddedMetadata_name : HasPropertyName EmbeddedMetadata := emb_propertyName.
#[export] Instance RelationMetadata_name : HasPropertyName RelationMetadata := rel_propertyName.

(** [connection.getMetadata(model)] throws when the entity is unknown. *)
Record Connection := {
  getMetadata : string -> option EntityMetadata
}.

Inductive QBCall : Type :=
| AddSelect (selection : string) (selectionAliasName : option string)
| LeftJoin (property : string) (alias : string)
| LeftJoinAndSelect (property : string) (alias : string).

Definition SelectQueryBuilder : Type := list QBCall.

Definition addSelect (qb : SelectQueryBuilder) (selection : string)
    (selectionAliasName : option string) : SelectQueryBuilder :=
  qb ++ [AddSelect selection selectionAliasName].

Definition leftJoin (qb : SelectQueryBuilder) (property alias : string)
    : SelectQueryBuilder :=
  qb ++ [LeftJoin property alias].

Definition leftJoinAndSelect (qb : SelectQueryBuilder) (property alias : string)
    : SelectQueryBuilder :=
  qb ++ [LeftJoinAndSelect property alias].

(** ** lib/Formatter and ConfigureLoader, by their interfaces *)

Record Formatter := {
  columnSelection : string -> string -> string;
  aliasField : string -> string -> string
}.

(** A required-field entry is a boolean or a predicate over the request
    context and the requested child names. *)
Inductive RequiredPredicate : Type :=
| ReqConst (b : bool)
| ReqPredicate (predicate : any -> list string -> bool).

Record ConfigureLoader := {
  getLoaderRequiredFields : string -> Hash RequiredPredicate;
  getLoaderIgnoredFields : string -> Hash bool
}.

(** Truthiness of [requiredFields.get(name)]: a function is truthy. *)
Definition required_truthy (entry : option RequiredPredicate) : bool :=
  match entry with
  | Some (ReqConst b) => b
  | Some (ReqPredicate _) => true
  | None => false
  end.

(** Truthiness of [ignoredFields.get(name)]. *)
Definition ignored_truthy (entry : option bool) : bool :=
  match entry with
  | Some b => b
  | None => false
  end.

(** ** crypto: the MD5 digest in hexadecimal (RFC 1321)

    [digest_hex s] is [crypto.createHash("md5").update(s).digest("hex")],
    computed on the bytes of [s]. *)

Module MD5.
Local Open Scope N_scope.

Definition mask32 : N := 4294967295.
Definition add32 (x y : N) : N := N.land (x + y) mask32.
Definition not32 (x : N) : N := N.lxor x mask32.
Definition rotl32 (x : N) (c : N) : N :=
  N.lor (N.land (N.shiftl x c) mask32) (N.shiftr x (32 - c)).

Definition s_table : list N :=
  [7; 12; 17; 22; 7; 12; 17; 22; 7; 12; 17; 22; 7; 12; 17; 22;
   5; 9; 14; 20; 5; 9; 14; 20; 5; 9; 14; 20; 5; 9; 14; 20;
   4; 11; 16; 23; 4; 11; 16; 23; 4; 11; 16; 23; 4; 11; 16; 23;
   6; 10; 15; 21; 6; 10; 15; 21; 6; 10; 15; 21; 6; 10; 15; 21].

Definition K_table : list N :=
  [3614090360; 3905402710; 606105819; 3250441966;
   4118548399; 1200080426; 2821735955; 4249261313;
   1770035416; 2336552879; 4294925233; 2304563134;
   1804603682; 4254626195; 2792965006; 1236535329;
   4129170786; 3225465664; 643717713; 3921069994;
   3593408605; 38016083; 3634488961; 3889429448;
   568446438; 3275163606; 4107603335; 1163531501;
   2850285829; 4243563512; 1735328473; 2368359562;
   4294588738; 2272392833; 1839030562; 4259657740;
   2763975236; 1272893353; 4139469664; 3200236656;
   681279174; 3936430074; 3572445317; 76029189;
   3654602809; 3873151461; 530742520; 3299628645;
   4096336452; 1126891415; 2878612391; 4237533241;
   1700485571; 2399980690; 4293915773; 2240044497;
   1873313359; 4264355552; 2734768916; 1309151649;
   4149444226; 3174756917; 718787259; 3951481745].

Record state := { sa : N; sb : N; sc : N; sd : N }.

Definition init : state :=
  {| sa := 1732584193; sb := 4023233417; sc := 2562383102; sd := 271733878 |}.

Definition bytes_of (s : string) : list N :=
  map (fun c => N_of_ascii c) (list_ascii_of_string s).

Fixpoint le_bytes (n : nat) (x : N) : list N :=
  match n with
  | O => []
  | S n' => N.land x 255 :: le_bytes n' (N.shiftr x 8)
  end.

Definition pad (msg : list N) : list N :=
  let len := N.of_nat (List.length msg) in
  let zeros := N.to_nat ((119 - len mod 64) mod 64) in
  msg ++ [128] ++ repeat 0 zeros ++ le_bytes 8 (8 * len).

Fixpoint word_le (bs : list N) : N :=
  match bs with
  | [] => 0
  | b :: bs' => b + 256 * word_le bs'
  end.

Fixpoint words (n : nat) (bs : list N) : list N :=
  match n with
  | O => []
  | S n' => word_le (firstn 4 bs) :: words n' (skipn 4 bs)
  end.

Definition round (M : list N) (i : N) (st : state) : state :=
  let '(Build_state A B C D) := st in
  let q := i / 16 in
  let F :=
    if q =? 0 then N.lor (N.land B C) (N.land (not32 B) D)
    else if q =? 1 then N.lor (N.land D B) (N.land (not32 D) C)
    else if q =? 2 then N.lxor B (N.lxor C D)
    else N.lxor C (N.lor B (not32 D)) in
  let g :=
    if q =? 0 then i
    else if q =? 1 then (5 * i + 1) mod 16
    else if q =? 2 then (3 * i + 5) mod 16
    else (7 * i) mod 16 in
  let F' := add32 (add32 (add32 F A) (nth (N.to_nat i) K_table 0)) (nth (N.to_nat g) M 0) in
  {| sa := D; sd := C; sc := B;
     sb := add32 B (rotl32 F' (nth (N.to_nat i) s_table 0)) |}.

Definition chunk (st : state) (block : list N) : state :=
  let M := words 16 block in
  let st' := fold_left (fun st i => round M (N.of_nat i) st) (seq 0 64) st in
  {| sa := add32 (sa st) (sa st'); sb := add32 (sb st) (sb st');
     sc := add32 (sc st) (sc st'); sd := add32 (sd st) (sd st') |}.

Fixpoint chunks (n : nat) (st : state) (bs : list N) : state :=
  match n with
  | O => st
  | S n' => chunks n' (chunk st (firstn 64 bs)) (skipn 64 bs)
  end.

Definition hex_digit (n : N) : ascii :=
  match n with
  | 0 => "0" | 1 => "1" | 2 => "2" | 3 => "3" | 4 => "4" | 5 => "5"
  | 6 => "6" | 7 => "7" | 8 => "8" | 9 => "9" | 10 => "a" | 11 => "b"
  | 12 => "c" | 13 => "d" | 14 => "e" | _ => "f"
  end%char.

Definition hex_byte (b : N) (rest : string) : string :=
  String (hex_digit (N.land (N.shiftr b 4) 15)) (String (hex_digit (N.land b 15)) rest).

Definition hex_word (w : N) (rest : string) : string :=
  hex_byte (N.land w 255)
    (hex_byte (N.land (N.shiftr w 8) 255)
       (hex_byte (N.land (N.shiftr w 16) 255)
          (hex_byte (N.land (N.shiftr w 24) 255) rest))).

Definition digest_hex (s : string) : string :=
  let bs := pad (bytes_of s) in
  let st := chunks (List.length bs / 64) init bs in
  hex_word (sa st) (hex_word (sb st) (hex_word (sc st) (hex_word (sd st) ""))).

End MD5.

(** ** GraphQLQueryResolver *)

Record GraphQLQueryResolver := {
  _primaryKeyColumn : option string;
  _formatter : Formatter;
  _maxDepth : number
}.

(** [output.slice(0, length)] *)
Definition slice0 (s : string) (length : Z) : string :=
  if Z.ltb length 0
  then substring 0 (String.length s - Z.to_nat (- length)) s
  else substring 0 (Z.to_nat length) s.

Section Resolver.

(** The registry of ./ConfigureLoader. *)
Variable config : ConfigureLoader.

Definition _generateChildHash (alias propertyName : string) (length : Z) : string :=
  let output := MD5.digest_hex (alias ++ "__" ++ propertyName)%string in
  if negb (Z.eqb length 0) then slice0 output length else output.

Definition _selectPrimaryKey (this : GraphQLQueryResolver)
    (qb : SelectQueryBuilder) (fields : list ColumnMetadata) (alias : string)
    : SelectQueryBuilder :=
  match _primaryKeyColumn this with
  | None => qb
  | Some "" => qb
  | Some pk =>
      let queriedPrimaryKey :=
        find (fun field => String.eqb (propertyName field) pk) fields in
      if match queriedPrimaryKey with Some field => isPrimary field | None => false end
      then qb
      else
        match queriedPrimaryKey with
        | None =>
            addSelect qb
              (columnSelection (_formatter this) alias pk)
              (Some (aliasField (_formatter this) alias pk))
        | Some _ => qb
        end
  end.

Definition _selectFields (this : GraphQLQueryResolver)
    (queryBuilder : SelectQueryBuilder) (fields : list ColumnMetadata)
    (alias : string) : SelectQueryBuilder :=
  let queryBuilder := _selectPrimaryKey this queryBuilder fields alias in
  fold_left
    (fun queryBuilder field =>
       addSelect queryBuilder
         (columnSelection (_formatter this) alias (propertyName field))
         (Some (aliasField (_formatter this) alias (databaseName field))))
    fields queryBuilder.

(** The first loop of [_selectEmbeddedFields]: the names pushed for one
    embedded field.  [columnName in embeddedSelection.children] throws a
    TypeError when the selected node has no children map and the embed has a
    column to test. *)
Definition embeddedFieldToSelect (requiredFields : Hash RequiredPredicate)
    (children : Hash Selection) (field : EmbeddedMetadata)
    : Error + list string :=
  let embeddedFieldName := propertyName field in
  if required_truthy (hash_get requiredFields embeddedFieldName) then
    inr (map (fun c => (embeddedFieldName ++ "." ++ propertyName c)%string)
           (emb_columns field))
  else
    match hash_get children embeddedFieldName with
    | Some embeddedSelection =>
        let embeddedFieldColumnNames := map propertyName (emb_columns field) in
        match embeddedSelection, embeddedFieldColumnNames with
        | mkSelection _ None, _ :: _ => inl TypeError
        | mkSelection _ None, [] => inr []
        | mkSelection _ (Some embeddedChildren), _ =>
            inr (map (fun columnName => (embeddedFieldName ++ "." ++ columnName)%string)
                   (filter (fun columnName => key_in columnName embeddedChildren)
                      embeddedFieldColumnNames))
        end
    | None => inr []
    end.

Fixpoint embeddedFieldsToSelect (requiredFields : Hash RequiredPredicate)
    (children : Hash Selection) (embeddedFields : list EmbeddedMetadata)
    : Error + list string :=
  match embeddedFields with
  | [] => inr []
  | field :: rest =>
      match embeddedFieldToSelect requiredFields children field with
      | inl e => inl e
      | inr names =>
          match embeddedFieldsToSelect requiredFields children rest with
          | inl e => inl e
          | inr more => inr (names ++ more)
          end
      end
  end.

Definition _selectEmbeddedFields (this : GraphQLQueryResolver)
    (queryBuilder : SelectQueryBuilder) (embeddedFields : list EmbeddedMetadata)
    (children : Hash Selection) (meta : EntityMetadata) (alias : string)
    : Completion * SelectQueryBuilder :=
  let requiredFields := getLoaderRequiredFields config (target meta) in
  match embeddedFieldsToSelect requiredFields children embeddedFields with
  | inl e => (Thrown e, queryBuilder)
  | inr flat =>
      (Returned,
       fold_left
         (fun queryBuilder field =>
            addSelect queryBuilder
              (columnSelection (_formatter this) alias field) None)
         flat queryBuilder)
  end.

(** [forEach] over the relations, stopped by the first exception. *)
Fixpoint forEach_relation
    (body : RelationMetadata -> SelectQueryBuilder -> Completion * SelectQueryBuilder)
    (relations : list RelationMetadata) (queryBuilder : SelectQueryBuilder)
    : Completion * SelectQueryBuilder :=
  match relations with
  | [] => (Returned, queryBuilder)
  | relation :: rest =>
      match body relation queryBuilder with
      | (Returned, queryBuilder') => forEach_relation body rest queryBuilder'
      | thrown => thrown
      end
  end.

(** The type of [this.createQuery] once [children[propertyName]] and the
    connection are fixed: model, query builder, alias, context, depth. *)
Definition CreateQueryOn : Type :=
  string -> SelectQueryBuilder -> string -> any -> Z
  -> Completion * SelectQueryBuilder.

(** [createQueryChild name] is [this.createQuery] applied to
    [children[name]].  The source calls it with six arguments,
    [(target, children[name], connection, queryBuilder, childAlias, depth + 1)]:
    the sixth parameter of [createQuery] is [context], and [depth] takes its
    default 0. *)
Definition _selectRelations (this : GraphQLQueryResolver)
    (createQueryChild : string -> CreateQueryOn)
    (queryBuilder : SelectQueryBuilder) (children : Hash Selection)
    (relations : list RelationMetadata) (alias : string)
    (meta : EntityMetadata) (depth : Z)
    : Completion * SelectQueryBuilder :=
  let requiredFields := getLoaderRequiredFields config (target meta) in
  let ignoredFields := getLoaderIgnoredFields config (target meta) in
  forEach_relation
    (fun relation queryBuilder =>
       let isRequired := required_truthy (hash_get requiredFields (propertyName relation)) in
       if key_in (propertyName relation) children || isRequired then
         let childAlias := _generateChildHash alias (propertyName relation) 10 in
         let queryBuilder :=
           if isRequired
           then leftJoinAndSelect queryBuilder
                  (columnSelection (_formatter this) alias (propertyName relation))
                  childAlias
           else leftJoin queryBuilder
                  (columnSelection (_formatter this) alias (propertyName relation))
                  childAlias in
         createQueryChild (propertyName relation)
           (inverseEntityTarget relation) queryBuilder childAlias
           (Num (depth + 1)) 0%Z
       else (Returned, queryBuilder))
    (filter
       (fun relation => negb (ignored_truthy (hash_get ignoredFields (propertyName relation))))
       relations)
    queryBuilder.

(** [createQuery] when [selection] is null or undefined. *)
Definition createQuery_null (model : string) (connection : Connection)
    (queryBuilder : SelectQueryBuilder) : Completion * SelectQueryBuilder :=
  match getMetadata connection model with
  | None => (Thrown (MetadataNotFound model), queryBuilder)
  | Some meta => (Returned, queryBuilder)
  end.

(** The columns and the embedded objects [createQuery] keeps. *)
Definition selectedFields (meta : EntityMetadata) (children : Hash Selection)
    : list ColumnMetadata :=
  let requiredFields := getLoaderRequiredFields config (target meta) in
  let ignoredFields := getLoaderIgnoredFields config (target meta) in
  filter
    (fun field =>
       negb (ignored_truthy (hash_get ignoredFields (propertyName field)))
       && (isPrimary field
           || key_in (propertyName field) children
           || required_truthy (hash_get requiredFields (propertyName field))))
    (columns meta).

Definition selectedEmbeddedFields (meta : EntityMetadata) (children : Hash Selection)
    : list EmbeddedMetadata :=
  let requiredFields := getLoaderRequiredFields config (target meta) in
  let ignoredFields := getLoaderIgnoredFields config (target meta) in
  filter
    (fun embed =>
       negb (ignored_truthy (hash_get ignoredFields (propertyName embed)))
       && (key_in (propertyName embed) children
           || required_truthy (hash_get requiredFields (propertyName embed))))
    (embeddeds meta).

(** [createQuery] on a selection that is an object.  The recursion follows the
    selection tree: the inner [fix] is the lookup [children[name]] of
    [_selectRelations], fused with the call it feeds.  When [name] is no own
    key, [children[name]] is undefined or an inherited member, which has no
    [children]: [createQuery] then does what it does on a null selection. *)
Fixpoint createQuery_node (this : GraphQLQueryResolver) (selection : Selection)
    (model : string) (connection : Connection) (queryBuilder : SelectQueryBuilder)
    (alias : string) (context : any) (depth : Z) {struct selection}
    : Completion * SelectQueryBuilder :=
  match getMetadata connection model with
  | None => (Thrown (MetadataNotFound model), queryBuilder)
  | Some meta =>
      match selection with
      | mkSelection _ (Some children) =>
          let fields := selectedFields meta children in
          let embeddedFields := selectedEmbeddedFields meta children in
          let queryBuilder := _selectFields this queryBuilder fields alias in
          match _selectEmbeddedFields this queryBuilder embeddedFields children meta alias with
          | (Returned, queryBuilder) =>
              if number_lt depth (_maxDepth this) then
                _selectRelations this
                  (fun name model queryBuilder alias context depth =>
                     (fix lookup (h : Hash Selection) : Completion * SelectQueryBuilder :=
                        match h with
                        | [] => createQuery_null model connection queryBuilder
                        | (k, child) :: h' =>
                            if String.eqb k name
                            then createQuery_node this child model connection
                                   queryBuilder alias context depth
                            else lookup h'
                        end) children)
                  queryBuilder children (relations meta) alias meta depth
              else (Returned, queryBuilder)
          | thrown => thrown
          end
      | mkSelection _ None => (Returned, queryBuilder)
      end
  end.

Definition createQuery (this : GraphQLQueryResolver) (model : string)
    (selection : option Selection) (connection : Connection)
    (queryBuilder : SelectQueryBuilder) (alias : string) (context : any)
    (depth : Z) : Completion * SelectQueryBuilder :=
  match selection with
  | Some selection =>
      createQuery_node this selection model connection queryBuilder alias context depth
  | None => createQuery_null model connection queryBuilder
  end.

(** [this.createQuery] applied to [children[name]], as [_selectRelations]
    calls it. *)
Definition createQueryChild (this : GraphQLQueryResolver) (connection : Connection)
    (children : Hash Selection) : string -> CreateQueryOn :=
  fun name model queryBuilder alias context depth =>
    createQuery this model (hash_get children name) connection
      queryBuilder alias context depth.

(** [_selectRequiredFields]: the pass whose call in [createQuery] is commented
    out.  It is the one place where a predicate entry is applied, to the
    context and to [Object.keys(children)]. *)
Definition isRequiredFor (predicate : RequiredPredicate) (context : any)
    (children : Hash Selection) : bool :=
  match predicate with
  | ReqPredicate f => f context (hash_keys children)
  | ReqConst b => b
  end.

Definition _selectRequiredFields (this : GraphQLQueryResolver)
    (queryBuilder : SelectQueryBuilder) (children : Hash Selection)
    (alias : string) (meta : EntityMetadata) (context : any)
    : SelectQueryBuilder :=
  let requiredFields := getLoaderRequiredFields config (target meta) in
  fold_left
    (fun queryBuilder entry =>
       let '(key, predicate) := entry in
       let isRequired := isRequiredFor predicate context children in
       if negb isRequired then queryBuilder
       else
         match find (fun c => String.eqb (propertyName c) key) (columns meta) with
         | Some col =>
             addSelect queryBuilder
               (columnSelection (_formatter this) alias (propertyName col))
               (Some (aliasField (_formatter this) alias (databaseName col)))
         | None =>
             match find (fun r => String.eqb (propertyName r) key) (relations meta) with
             | Some rel =>
                 leftJoinAndSelect queryBuilder
                   (columnSelection (_formatter this) alias (propertyName rel))
                   (_generateChildHash alias (propertyName rel) 10)
             | None =>
                 match find (fun e => String.eqb (propertyName e) key) (embeddeds meta) with
                 | Some embed =>
                     addSelect queryBuilder
                       (columnSelection (_formatter this) alias (propertyName embed))
                       (Some (aliasField (_formatter this) alias (propertyName embed)))
                 | None => queryBuilder
                 end
             end
         end)
    requiredFields queryBuilder.

End Resolver.

(** ** graphql: the AST nodes the parser reads *)

Inductive ValueNode : Type :=
| StringValue (value : string)
| BooleanValue (value : bool)
| IntValue (value : string)
| FloatValue (value : string)
| ObjectValue (fields : list (string * ValueNode))
| ListValue (values : list ValueNode)
| NullValue
| EnumValue (value : string)
| VariableNode (name : string).

(** [FieldNode name arguments selectionSet]: the argument list and the
    selection set of a field are optional. *)
Inductive ASTNode : Type :=
| FieldNode (name : string) (args : option (list (string * ValueNode)))
    (selectionSet : option (list ASTNode))
| InlineFragmentNode (selectionSet : list ASTNode)
| FragmentSpreadNode (name : string)
| FragmentDefinitionNode (name : string) (selectionSet : list ASTNode).

(** [GraphQLResolveInfo | FieldNodeInfo], the two fields the parser reads. *)
Record FieldNodeInfo := {
  fieldNodes : list ASTNode;
  fragments : Hash ASTNode
}.

(** The result of a function that recurses through fragment definitions: a
    value, an exception, or no answer within the given number of nested calls. *)
Inductive Fueled (A : Type) : Type :=
| Done (a : A)
| Threw (e : Error)
| OutOfFuel.
Arguments Done {A} a.
Arguments Threw {A} e.
Arguments OutOfFuel {A}.

Definition Fueled_bind {A B} (m : Fueled A) (k : A -> Fueled B) : Fueled B :=
  match m with
  | Done a => k a
  | Threw e => Threw e
  | OutOfFuel => OutOfFuel
  end.

Notation "x <- m ;; k" := (Fueled_bind m (fun x => k))
  (at level 61, m at next level, right associativity).

Definition Fueled_of {A} (r : Error + A) : Fueled A :=
  match r with
  | inr a => Done a
  | inl e => Threw e
  end.

(** [list.reduce(step, init)] with a step that may throw. *)
Fixpoint reduce {A B} (step : B -> A -> Fueled B) (l : list A) (init : B) : Fueled B :=
  match l with
  | [] => Done init
  | x :: l' => acc <- step init x ;; reduce step l' acc
  end.

(** ** GraphQLInfoParser *)

(** [parseLiteral], with [this] bound to the parser or not.  The list case
    hands the method itself to [map], so the elements are decoded with [this]
    undefined, and reading [this.parseLiteral] then throws. *)
Fixpoint parseLiteral (this_bound : bool) (ast : ValueNode) : Error + any :=
  match ast with
  | StringValue value => inr (Str value)
  | BooleanValue value => inr (Bool value)
  | IntValue value => inr (Float value)
  | FloatValue value => inr (Float value)
  | ObjectValue fields =>
      (fix forEach (fields : list (string * ValueNode)) (value : Hash any)
         : Error + any :=
         match fields with
         | [] => inr (Obj value)
         | (name, field_value) :: rest =>
             if this_bound then
               match parseLiteral true field_value with
               | inr v => forEach rest (hash_set value name v)
               | inl e => inl e
               end
             else inl TypeError
         end) fields []
  | ListValue values =>
      if this_bound then
        match
          (fix map_values (values : list ValueNode) : Error + list any :=
             match values with
             | [] => inr []
             | v :: rest =>
                 match parseLiteral false v with
                 | inr x =>
                     match map_values rest with
                     | inr xs => inr (x :: xs)
                     | inl e => inl e
                     end
                 | inl e => inl e
                 end
             end) values
        with
        | inr items => inr (Arr items)
        | inl e => inl e
        end
      else inl TypeError
  | NullValue => inr Null
  | EnumValue _ => inr Null
  | VariableNode _ => inr Null
  end.

(** [node.arguments.map(...)]: one single-key object per argument. *)
Fixpoint mapArguments (args : list (string * ValueNode)) : Error + list (string * any) :=
  match args with
  | [] => inr []
  | (name, value) :: rest =>
      match parseLiteral true value with
      | inr v =>
          match mapArguments rest with
          | inr vs => inr ((name, v) :: vs)
          | inl e => inl e
          end
      | inl e => inl e
      end
  end.

(** [node.arguments ? node.arguments.map(...).reduce((p, n) => ({...p, ...n}), {}) : {}] *)
Definition decodeArguments (args : option (list (string * ValueNode)))
    : Error + Hash any :=
  match args with
  | Some args =>
      match mapArguments args with
      | inr singles => inr (fold_left (fun p n => hash_set p (fst n) (snd n)) singles [])
      | inl e => inl e
      end
  | None => inr []
  end.

Definition getSelections (ast : option ASTNode) : list ASTNode :=
  match ast with
  | Some (FieldNode _ _ (Some selections)) => selections
  | Some (InlineFragmentNode selections) => selections
  | Some (FragmentDefinitionNode _ selections) => selections
  | _ => []
  end.

Definition isFragment (ast : ASTNode) : bool :=
  match ast with
  | InlineFragmentNode _ => true
  | FragmentSpreadNode _ => true
  | _ => false
  end.

(** [info.fragments] is the dictionary graphql-js builds with
    [Object.create(null)]: it inherits nothing. *)
Definition getAST (ast : ASTNode) (info : FieldNodeInfo) : option ASTNode :=
  match ast with
  | FragmentSpreadNode fragmentName => hash_get (fragments info) fragmentName
  | _ => Some ast
  end.

(** [node.name.value] and [node.arguments] of a node read as a field. *)
Definition nodeName (node : ASTNode) : string :=
  match node with
  | FieldNode name _ _ => name
  | FragmentSpreadNode name => name
  | FragmentDefinitionNode name _ => name
  | InlineFragmentNode _ => ""
  end.

Definition nodeArguments (node : ASTNode) : option (list (string * ValueNode)) :=
  match node with
  | FieldNode _ args _ => args
  | _ => None
  end.

(** The callback of the [reduce] in [flattenAST], given [flattenAST] itself.
    When the name is already there, [flattenAST] runs on the children of the
    existing node, which it updates in place, and [Object.assign] copies that
    object onto itself; when the existing node has no children map, the call
    runs on a fresh object and [Object.assign(undefined, ...)] throws.  A name
    inherited from [Object.prototype] also makes [flattened[name]] truthy,
    with no [children]: the same exception, at the first occurrence. *)
Definition flattenSelection
    (flattenAST : option ASTNode -> FieldNodeInfo -> Hash Selection -> Fueled (Hash Selection))
    (info : FieldNodeInfo) (flattened : Hash Selection) (n : ASTNode)
    : Fueled (Hash Selection) :=
  if isFragment n then flattenAST (getAST n info) info flattened
  else
    let node := n in
    let name := nodeName node in
    match hash_get flattened name with
    | Some (mkSelection existingArguments (Some existingChildren)) =>
        merged <- flattenAST (Some node) info existingChildren ;;
        Done (hash_set flattened name
                (mkSelection existingArguments (Some merged)))
    | Some (mkSelection _ None) =>
        _ <- flattenAST (Some node) info [] ;;
        Threw TypeError
    | None =>
        if inherited name then
          _ <- flattenAST (Some node) info [] ;;
          Threw TypeError
        else
          decoded <- Fueled_of (decodeArguments (nodeArguments node)) ;;
          nodeChildren <- flattenAST (Some node) info [] ;;
          Done (hash_set flattened name
                  (mkSelection (Some decoded) (Some nodeChildren)))
    end.

(** [flattenAST]; [fuel] bounds the nesting of its calls, which a cycle of
    fragment spreads makes unbounded. *)
Fixpoint flattenAST (fuel : nat) (ast : option ASTNode) (info : FieldNodeInfo)
    (obj : Hash Selection) : Fueled (Hash Selection) :=
  match fuel with
  | O => OutOfFuel
  | S fuel' =>
      reduce (flattenSelection (flattenAST fuel') info) (getSelections ast) obj
  end.

Definition graphqlFields (fuel : nat) (info : FieldNodeInfo) (obj : Hash Selection)
    : Fueled Selection :=
  children <- reduce (fun o ast => flattenAST fuel (Some ast) info o)
                (fieldNodes info) obj ;;
  Done (mkSelection None (Some children)).

(** [fieldName.split(".")]: the pieces between the dots, one piece at least. *)
Fixpoint split_dot (s : string) : list string :=
  match s with
  | EmptyString => [EmptyString]
  | String c rest =>
      if Ascii.eqb c "."%char then EmptyString :: split_dot rest
      else
        match split_dot rest with
        | piece :: pieces => String c piece :: pieces
        | [] => [String c EmptyString]
        end
  end.

(** [node.selectionSet ? node.selectionSet.selections : []] *)
Definition selectionsOf (node : ASTNode) : list ASTNode :=
  match node with
  | FieldNode _ _ (Some selections) => selections
  | FieldNode _ _ None => []
  | InlineFragmentNode selections => selections
  | FragmentSpreadNode _ => []
  | FragmentDefinitionNode _ selections => selections
  end.

(** [fieldNodes.map(node => ...).flat()]: reading [selectionSet] of an
    undefined node throws. *)
Fixpoint flatSelections (fieldNodes : list (option ASTNode)) : Error + list ASTNode :=
  match fieldNodes with
  | [] => inr []
  | None :: _ => inl TypeError
  | Some node :: rest =>
      match flatSelections rest with
      | inr selections => inr (selectionsOf node ++ selections)
      | inl e => inl e
      end
  end.

(** The test of the [find] in [resolveFieldNodePath]; [fieldName] is
    undefined when the path is used up. *)
Definition selectionNamed (fieldName : option string) (selection : ASTNode) : bool :=
  match selection with
  | InlineFragmentNode _ => false
  | _ =>
      match fieldName with
      | Some name => String.eqb (nodeName selection) name
      | None => false
      end
  end.

(** [resolveFieldNodePath]: [fieldNames.shift()] takes the head of the path,
    the recursion goes on with the rest and the one node found, which is
    undefined when nothing was found. *)
Fixpoint resolveFieldNodePath (fieldNodes : list (option ASTNode))
    (fieldNames : list string) : Error + option ASTNode :=
  match flatSelections fieldNodes with
  | inl e => inl e
  | inr selections =>
      match fieldNames with
      | [] => inr (find (selectionNamed None) selections)
      | fieldName :: rest =>
          let childNode := find (selectionNamed (Some fieldName)) selections in
          match rest with
          | [] => inr childNode
          | _ :: _ => resolveFieldNodePath [childNode] rest
          end
      end
  end.

(** What [getFieldNode] returns: [fieldNodes] holds the one node found, or
    undefined. *)
Record ResolvedFieldNode := {
  resolved_fieldNodes : list (option ASTNode);
  resolved_fragments : Hash ASTNode;
  resolved_fieldName : string
}.

Definition getFieldNode (info : FieldNodeInfo) (fieldName : string)
    : Error + ResolvedFieldNode :=
  match resolveFieldNodePath (map Some (fieldNodes info)) (split_dot fieldName) with
  | inl e => inl e
  | inr childFieldNode =>
      inr {| resolved_fieldNodes := [childFieldNode];
             resolved_fragments := fragments info;
             resolved_fieldName := fieldName |}
  end.

(** ** Notions used to state the properties *)

Definition is_join (call : QBCall) : bool :=
  match call with
  | AddSelect _ _ => false
  | LeftJoin _ _ => true
  | LeftJoinAndSelect _ _ => true
  end.

(** The join calls of a query builder, in order. *)
Definition joins (qb : SelectQueryBuilder) : list QBCall := filter is_join qb.

(** A step on the query builder that only appends to it. *)
Definition appends (f : SelectQueryBuilder -> Completion * SelectQueryBuilder) : Prop :=
  forall qb, f qb = (fst (f []), qb ++ snd (f [])).

(** The resolver with its depth ceiling removed. *)
Definition unbounded (this : GraphQLQueryResolver) : GraphQLQueryResolver :=
  {| _primaryKeyColumn := _primaryKeyColumn this;
     _formatter := _formatter this;
     _maxDepth := Infinity |}.

(** The projection [_selectFields] adds for one column. *)
Definition projectColumn (this : GraphQLQueryResolver) (alias : string)
    (field : ColumnMetadata) : QBCall :=
  AddSelect (columnSelection (_formatter this) alias (propertyName field))
    (Some (aliasField (_formatter this) alias (databaseName field))).

(** The aliases reachable from the root alias by child-alias generation. *)
Inductive AliasFrom (md5 : string -> string -> Z -> string) (root : string) : string -> Prop :=
| AliasFrom_root : AliasFrom md5 root root
| AliasFrom_child parent propertyName :
    AliasFrom md5 root parent ->
    AliasFrom md5 root (md5 parent propertyName 10%Z).

(** A join call whose alias is the child hash of its parent alias and
    relation name, the parent being reachable from [root]. *)
Definition join_derived (this : GraphQLQueryResolver) (root : string)
    (call : QBCall) : Prop :=
  match call with
  | AddSelect _ _ => True
  | LeftJoin property alias | LeftJoinAndSelect property alias =>
      exists parent propertyName,
        AliasFrom _generateChildHash root parent
        /\ property = columnSelection (_formatter this) parent propertyName
        /\ alias = _generateChildHash parent propertyName 10
  end.

(** A required entry that is a predicate, not a constant boolean. *)
Definition is_predicate (entry : option RequiredPredicate) : bool :=
  match entry with
  | Some (ReqPredicate _) => true
  | _ => false
  end.

(** A required entry that is the constant [true]. *)
Definition marked_required (entry : option RequiredPredicate) : bool :=
  match entry with
  | Some (ReqConst b) => b
  | _ => false
  end.

Definition is_hex_digit (c : ascii) : bool :=
  let n := nat_of_ascii c in
  ((48 <=? n) && (n <=? 57) || (97 <=? n) && (n <=? 102))%nat.

(** What [createQuery] does after [_selectFields] (the embedded objects, then
    the relations), run on an empty query builder. *)
Definition afterFields (config : ConfigureLoader) (this : GraphQLQueryResolver)
    (connection : Connection) (meta : EntityMetadata) (children : Hash Selection)
    (alias : string) (depth : Z) : Completion * SelectQueryBuilder :=
  match _selectEmbeddedFields config this []
          (selectedEmbeddedFields config meta children) children meta alias with
  | (Returned, qb) =>
      if number_lt depth (_maxDepth this) then
        _selectRelations config this
          (createQueryChild config this connection children)
          qb children (relations meta) alias meta depth
      else (Returned, qb)
  | thrown => thrown
  end.

(** The metadata of an entity without the columns, embedded objects and
    relations of a given property name, and the connection that serves it
    for the entity type [entity]. *)
Definition withoutProperty (name : string) (meta : EntityMetadata) : EntityMetadata :=
  {| target := target meta;
     columns := filter (fun c => negb (String.eqb (propertyName c) name)) (columns meta);
     embeddeds := filter (fun e => negb (String.eqb (propertyName e) name)) (embeddeds meta);
     relations := filter (fun r => negb (String.eqb (propertyName r) name)) (relations meta) |}.

Definition connectionWithout (entity name : string) (connection : Connection)
    : Connection :=
  {| getMetadata := fun model =>
       match getMetadata connection model with
       | Some meta =>
           Some (if String.eqb (target meta) entity
                 then withoutProperty name meta else meta)
       | None => None
       end |}.

(** The selection asks, of the entity [model] or of an entity reached from it
    through the relations the selection names, for an embedded object that
    has a column and is neither ignored nor required, through a node without
    a children map. *)
Inductive EmbeddedWithoutChildren (config : ConfigureLoader) (connection : Connection)
    : string -> Selection -> Prop :=
| EmbeddedWithoutChildren_here model meta args children embed embedArgs :
    getMetadata connection model = Some meta ->
    In embed (embeddeds meta) ->
    ignored_truthy
      (hash_get (getLoaderIgnoredFields config (target meta)) (propertyName embed)) = false ->
    required_truthy
      (hash_get (getLoaderRequiredFields config (target meta)) (propertyName embed)) = false ->
    hash_get children (propertyName embed) = Some (mkSelection embedArgs None) ->
    emb_columns embed <> [] ->
    EmbeddedWithoutChildren config connection model (mkSelection args (Some children))
| EmbeddedWithoutChildren_below model meta args children relation child :
    getMetadata connection model = Some meta ->
    In relation (relations meta) ->
    hash_get children (propertyName relation) = Some child ->
    EmbeddedWithoutChildren config connection (inverseEntityTarget relation) child ->
    EmbeddedWithoutChildren config connection model (mkSelection args (Some children)).

(** Selection nodes that have a children map, as have all nodes below them:
    the nodes [flattenAST] builds. *)
Inductive HasChildren : Selection -> Prop :=
| HasChildren_node args children :
    (forall k child, hash_get children k = Some child -> HasChildren child) ->
    HasChildren (mkSelection args (Some children)).

Definition AllHaveChildren (h : Hash Selection) : Prop :=
  forall k child, hash_get h k = Some child -> HasChildren child.

(** Union merge, as the specification words it: [Merged existing new merged]
    when [merged] has the keys of both maps; a key of one map alone keeps its
    node; a key of both keeps the arguments of [existing] and has for children
    the union merge of the children of the two nodes. *)
Inductive Merged : Hash Selection -> Hash Selection -> Hash Selection -> Prop :=
| Merged_keys existing new merged :
    (forall k, MergedAt (hash_get existing k) (hash_get new k) (hash_get merged k)) ->
    Merged existing new merged
with MergedAt : option Selection -> option Selection -> option Selection -> Prop :=
| MergedAt_neither : MergedAt None None None
| MergedAt_existing node : HasChildren node -> MergedAt (Some node) None (Some node)
| MergedAt_new node : MergedAt None (Some node) (Some node)
| MergedAt_both args children args' children' merged :
    Merged children children' merged ->
    MergedAt (Some (mkSelection args (Some children)))
      (Some (mkSelection args' (Some children')))
      (Some (mkSelection args (Some merged))).

(** Documents on which [flattenAST] returns: no field has a name inherited
    from [Object.prototype], the arguments of every field decode, and every
    fragment spread names no fragment or a fragment of rank below [bound]; in
    an acyclic document the definition of a fragment only spreads fragments of
    lower rank.  (A definition standing among selections is read as a field
    of its name, and is held to the same condition.) *)
Inductive Normalizable (info : FieldNodeInfo) (rank : string -> nat) (bound : nat)
    : ASTNode -> Prop :=
| Normalizable_field name args selectionSet decoded :
    inherited name = false ->
    decodeArguments args = inr decoded ->
    (forall s, In s (getSelections (Some (FieldNode name args selectionSet))) ->
               Normalizable info rank bound s) ->
    Normalizable info rank bound (FieldNode name args selectionSet)
| Normalizable_inline selections :
    (forall s, In s selections -> Normalizable info rank bound s) ->
    Normalizable info rank bound (InlineFragmentNode selections)
| Normalizable_spread name :
    (forall definition,
        hash_get (fragments info) name = Some definition -> rank name < bound) ->
    Normalizable info rank bound (FragmentSpreadNode name)
| Normalizable_definition name selections :
    inherited name = false ->
    (forall s, In s selections -> Normalizable info rank bound s) ->
    Normalizable info rank bound (FragmentDefinitionNode name selections).

Definition Acyclic (info : FieldNodeInfo) (rank : string -> nat) : Prop :=
  forall name definition,
    hash_get (fragments info) name = Some definition ->
    Normalizable info rank (rank name) definition.

(** [flattenAST] returns on [ast], from every dictionary of nodes with
    children maps, once it is given [fuel] nested calls or more. *)
Definition Flattens (info : FieldNodeInfo) (ast : option ASTNode) (fuel : nat) : Prop :=
  forall fuel' obj,
    fuel <= fuel' -> AllHaveChildren obj ->
    exists out, flattenAST fuel' ast info obj = Done out.

(** The fields [flattenAST] goes through at one level, in the order it meets
    them: the selections, with every inline fragment and every fragment
    spread replaced by the fields of its own level (none for a spread of an
    unknown fragment). *)
Inductive LevelFields (info : FieldNodeInfo) : list ASTNode -> list ASTNode -> Prop :=
| LevelFields_nil : LevelFields info [] []
| LevelFields_field n selections fields :
    isFragment n = false ->
    LevelFields info selections fields ->
    LevelFields info (n :: selections) (n :: fields)
| LevelFields_fragment n selections inlined fields :
    isFragment n = true ->
    LevelFields info (getSelections (getAST n info)) inlined ->
    LevelFields info selections fields ->
    LevelFields info (n :: selections) (inlined ++ fields).

(** [c] is the name of a child of an occurrence of [k] among [fields]: of a
    field at the level of that occurrence's own selection set. *)
Definition ChildOfOccurrence (info : FieldNodeInfo) (fields : list ASTNode)
    (k c : string) : Prop :=
  exists f inner g,
    In f fields /\ nodeName f = k
    /\ LevelFields info (getSelections (Some f)) inner
    /\ In g inner /\ nodeName g = c.

(** [c] is a key of the children map of the node at [k]. *)
Definition ChildKey (h : Hash Selection) (k c : string) : Prop :=
  exists args children,
    hash_get h k = Some (mkSelection args (Some children))
    /\ hash_in c children = true.

(** A connection that knows the target of every relation of the entities it
    knows. *)
Definition Closed (connection : Connection) : Prop :=
  forall model meta relation,
    getMetadata connection model = Some meta ->
    In relation (relations meta) ->
    exists meta', getMetadata connection (inverseEntityTarget relation) = Some meta'.

(** A literal that [parseLiteral] decodes without its receiver: neither a
    list nor an object with a field. *)
Definition flatLiteral (ast : ValueNode) : bool :=
  match ast with
  | ListValue _ => false
  | ObjectValue (_ :: _) => false
  | _ => true
  end.

(** ** The entities of the test suite (__tests_v2__/testStartup.ts)

    [Author], [Book], [Publisher] and [Review], with the columns and relations
    the examples below need, a formatter that joins alias and name with a dot
    (selection) or an underscore (alias), and loader configurations. *)

Module Fixture.

Definition column (name : string) (primary : bool) : ColumnMetadata :=
  {| col_propertyName := name; databaseName := name; isPrimary := primary |}.

Definition relation (name inverse : string) : RelationMetadata :=
  {| rel_propertyName := name; inverseEntityTarget := inverse |}.

Definition Author : EntityMetadata :=
  {| target := "Author";
     columns := [column "id" true; column "firstName" false; column "email" false];
     embeddeds := [];
     relations := [relation "books" "Book"] |}.

Definition Book : EntityMetadata :=
  {| target := "Book";
     columns := [column "id" true; column "title" false; column "publisherId" false];
     embeddeds := [];
     relations := [relation "author" "Author"; relation "publisher" "Publisher";
                   relation "reviews" "Review"] |}.

Definition Publisher : EntityMetadata :=
  {| target := "Publisher";
     columns := [column "id" true; column "name" false];
     embeddeds := [{| emb_propertyName := "address";
                      emb_columns := [column "street" false; column "city" false] |}];
     relations := [relation "books" "Book"] |}.

Definition Review : EntityMetadata :=
  {| target := "Review";
     columns := [column "id" true; column "rating" false];
     embeddeds := [];
     relations := [relation "book" "Book"] |}.

Definition connection : Connection :=
  {| getMetadata := fun model =>
       if String.eqb model "Author" then Some Author
       else if String.eqb model "Book" then Some Book
       else if String.eqb model "Publisher" then Some Publisher
       else if String.eqb model "Review" then Some Review
       else None |}.

Definition formatter : Formatter :=
  {| columnSelection := fun alias field => (alias ++ "." ++ field)%string;
     aliasField := fun alias field => (alias ++ "_" ++ field)%string |}.

Definition loader (maxQueryDepth : number) : GraphQLQueryResolver :=
  {| _primaryKeyColumn := None; _formatter := formatter; _maxDepth := maxQueryDepth |}.

Definition loaderWithPrimaryKey (primaryKeyColumn : string) : GraphQLQueryResolver :=
  {| _primaryKeyColumn := Some primaryKeyColumn; _formatter := formatter;
     _maxDepth := Infinity |}.

(** No field is configured. *)
Definition noPolicy : ConfigureLoader :=
  {| getLoaderRequiredFields := fun _ => [];
     getLoaderIgnoredFields := fun _ => [] |}.

(** [Book.publisher] is required. *)
Definition publisherRequired : ConfigureLoader :=
  {| getLoaderRequiredFields := fun entity =>
       if String.eqb entity "Book" then [("publisher", ReqConst true)] else [];
     getLoaderIgnoredFields := fun _ => [] |}.

(** [Author.email] is required by a predicate that answers false. *)
Definition emailRequiredNever : ConfigureLoader :=
  {| getLoaderRequiredFields := fun entity =>
       if String.eqb entity "Author"
       then [("email", ReqPredicate (fun context requested => false))] else [];
     getLoaderIgnoredFields := fun _ => [] |}.

(** [Book.id] is ignored. *)
Definition bookIdIgnored : ConfigureLoader :=
  {| getLoaderRequiredFields := fun _ => [];
     getLoaderIgnoredFields := fun entity =>
       if String.eqb entity "Book" then [("id", true)] else [] |}.

(** [Publisher.id] is both required and ignored. *)
Definition publisherIdRequiredIgnored : ConfigureLoader :=
  {| getLoaderRequiredFields := fun entity =>
       if String.eqb entity "Publisher" then [("id", ReqConst true)] else [];
     getLoaderIgnoredFields := fun entity =>
       if String.eqb entity "Publisher" then [("id", true)] else [] |}.

(** A selection node as the parser builds it: no arguments, these children. *)
Definition node (children : Hash Selection) : Selection :=
  mkSelection (Some []) (Some children).

Definition leaf : Selection := node [].

(** The request
    [{ users { profile(first: 10) { id } ...ProfileName } }] with
    [fragment ProfileName on User { profile(ids: [[1]]) { name } }]:
    [profile] is selected directly and again through the fragment, the second
    time with an argument (a list inside a list) whose decoding throws. *)
Definition profileDirect : ASTNode :=
  FieldNode "profile" (Some [("first", IntValue "10")])
    (Some [FieldNode "id" None None]).

Definition profileInFragment : ASTNode :=
  FieldNode "profile" (Some [("ids", ListValue [ListValue [IntValue "1"]])])
    (Some [FieldNode "name" None None]).

Definition usersInfo : FieldNodeInfo :=
  {| fieldNodes :=
       [FieldNode "users" None
          (Some [profileDirect; FragmentSpreadNode "ProfileName"])];
     fragments :=
       [("ProfileName", FragmentDefinitionNode "ProfileName" [profileInFragment])] |}.

(** The same request with the second [profile] spreading a fragment of its
    own: [{ users { profile(first: 10) { id } profile(ids: [[1]]) { ...Name } } }]
    with [fragment Name on Profile { name }]. *)
Definition profileSpreading : ASTNode :=
  FieldNode "profile" (Some [("ids", ListValue [ListValue [IntValue "1"]])])
    (Some [FragmentSpreadNode "Name"]).

(** The request [{ races { constructor { id } ...Team } }] with
    [fragment Team on Race { constructor { name } }]: the field selected
    twice has the name of a member of [Object.prototype]. *)
Definition constructorInfo : FieldNodeInfo :=
  {| fieldNodes :=
       [FieldNode "races" None
          (Some [FieldNode "constructor" None (Some [FieldNode "id" None None]);
                 FragmentSpreadNode "Team"])];
     fragments :=
       [("Team",
         FragmentDefinitionNode "Team"
           [FieldNode "constructor" None (Some [FieldNode "name" None None])])] |}.

Definition namesInfo : FieldNodeInfo :=
  {| fieldNodes :=
       [FieldNode "users" None (Some [profileDirect; profileSpreading])];
     fragments :=
       [("Name", FragmentDefinitionNode "Name" [FieldNode "name" None None])] |}.

End Fixture.

(** * Properties of the query resolver *)

(** Induction on a selection tree, with the hypothesis on every child. *)
Lemma Selection_tree_ind (P : Selection -> Prop) :
  (forall args, P (mkSelection args None)) ->
  (forall args children,
      Forall (fun entry => P (snd entry)) children ->
      P (mkSelection args (Some children))) ->
  forall selection, P selection.
Proof.
  intros Hleaf Hnode.
  fix IH 1.
  intros [args [children|]]; [|apply Hleaf].
  apply Hnode.
  revert children.
  fix IHchildren 1.
  intros [|[k child] rest].
  - constructor.
  - constructor; [apply IH | apply IHchildren].
Qed.

Lemma hash_get_Forall {T} (P : T -> Prop) (h : Hash T) k v :
  Forall (fun entry => P (snd entry)) h -> hash_get h k = Some v -> P v.
Proof.
  induction 1 as [|[k' v'] h' Hv _ IH]; simpl; [discriminate|].
  destruct (String.eqb k' k); [intros [= <-]; exact Hv | exact IH].
Qed.

Section ResolverFacts.

Variable config : ConfigureLoader.

(** *** The query builder is only appended to *)

Lemma _selectPrimaryKey_app this qb fields alias :
  _selectPrimaryKey this qb fields alias
  = qb ++ _selectPrimaryKey this [] fields alias.
Proof.
  unfold _selectPrimaryKey.
  destruct (_primaryKeyColumn this) as [[|c pk]|]; try (now rewrite app_nil_r).
  destruct (find _ fields) as [field|]; simpl.
  - destruct (isPrimary field); now rewrite app_nil_r.
  - reflexivity.
Qed.

Lemma fold_addSelect_app {A} (call : A -> QBCall) (l : list A) qb :
  fold_left (fun qb x => qb ++ [call x]) l qb = qb ++ map call l.
Proof.
  revert qb. induction l as [|x l IH]; intros qb; simpl.
  - now rewrite app_nil_r.
  - rewrite IH, <- app_assoc. reflexivity.
Qed.

Lemma _selectFields_app this qb fields alias :
  _selectFields this qb fields alias
  = qb ++ _selectPrimaryKey this [] fields alias
       ++ map (projectColumn this alias) fields.
Proof.
  unfold _selectFields, addSelect.
  rewrite (fold_addSelect_app (projectColumn this alias)).
  rewrite _selectPrimaryKey_app, <- app_assoc. reflexivity.
Qed.

Lemma _selectEmbeddedFields_app this qb embeddedFields children meta alias :
  _selectEmbeddedFields config this qb embeddedFields children meta alias
  = (fst (_selectEmbeddedFields config this [] embeddedFields children meta alias),
     qb ++ snd (_selectEmbeddedFields config this [] embeddedFields children meta alias)).
Proof.
  unfold _selectEmbeddedFields.
  destruct (embeddedFieldsToSelect _ _ _) as [e|flat]; simpl.
  - now rewrite app_nil_r.
  - unfold addSelect.
    rewrite !(fold_addSelect_app
                (fun field => AddSelect (columnSelection (_formatter this) alias field) None)).
    reflexivity.
Qed.

Lemma forEach_relation_app body relations :
  (forall relation, In relation relations -> appends (body relation)) ->
  appends (forEach_relation body relations).
Proof.
  induction relations as [|relation rest IH]; intros Hbody qb; simpl.
  - now rewrite app_nil_r.
  - rewrite (Hbody relation (or_introl eq_refl) qb).
    destruct (body relation []) as [[|e] ops] eqn:Hstep; simpl.
    + rewrite (IH (fun r Hr => Hbody r (or_intror Hr)) (qb ++ ops)).
      rewrite (IH (fun r Hr => Hbody r (or_intror Hr)) ops).
      simpl. now rewrite app_assoc.
    + reflexivity.
Qed.

Lemma forEach_relation_ext body body' relations :
  (forall relation qb, In relation relations -> body relation qb = body' relation qb) ->
  forall qb, forEach_relation body relations qb = forEach_relation body' relations qb.
Proof.
  induction relations as [|relation rest IH]; intros Hext qb; simpl; [reflexivity|].
  rewrite (Hext relation qb (or_introl eq_refl)).
  destruct (body' relation qb) as [[|e] qb']; [|reflexivity].
  apply IH. intros r qb0 Hr. apply Hext. now right.
Qed.

Lemma _selectRelations_ext this child child' qb children relations alias meta depth :
  (forall name model qb alias context depth,
      child name model qb alias context depth
      = child' name model qb alias context depth) ->
  _selectRelations config this child qb children relations alias meta depth
  = _selectRelations config this child' qb children relations alias meta depth.
Proof.
  intros Hext. unfold _selectRelations.
  apply forEach_relation_ext. intros relation qb0 _.
  destruct (_ || _); [|reflexivity].
  apply Hext.
Qed.

Lemma _selectRelations_app this child children relations alias meta depth :
  (forall name model alias context depth,
      appends (fun qb => child name model qb alias context depth)) ->
  appends (fun qb =>
             _selectRelations config this child qb children relations alias meta depth).
Proof.
  intros Hchild. unfold _selectRelations.
  apply forEach_relation_app. intros relation _ qb.
  destruct (_ || _); [|simpl; now rewrite app_nil_r].
  destruct (required_truthy _).
  - unfold leftJoinAndSelect.
    rewrite (Hchild _ _ _ _ _ (qb ++ _)), (Hchild _ _ _ _ _ ([] ++ _)).
    simpl. now rewrite <- app_assoc.
  - unfold leftJoin.
    rewrite (Hchild _ _ _ _ _ (qb ++ _)), (Hchild _ _ _ _ _ ([] ++ _)).
    simpl. now rewrite <- app_assoc.
Qed.

(** *** [createQuery], unfolded as the source reads *)

Lemma createQuery_children this model args children connection qb alias context depth :
  createQuery config this model (Some (mkSelection args (Some children)))
    connection qb alias context depth
  = match getMetadata connection model with
    | None => (Thrown (MetadataNotFound model), qb)
    | Some meta =>
        let fields := selectedFields config meta children in
        let embeddedFields := selectedEmbeddedFields config meta children in
        let qb := _selectFields this qb fields alias in
        match _selectEmbeddedFields config this qb embeddedFields children meta alias with
        | (Returned, qb) =>
            if number_lt depth (_maxDepth this) then
              _selectRelations config this
                (createQueryChild config this connection children)
                qb children (relations meta) alias meta depth
            else (Returned, qb)
        | thrown => thrown
        end
    end.
Proof.
  simpl.
  destruct (getMetadata connection model) as [meta|]; [|reflexivity].
  destruct (_selectEmbeddedFields _ _ _ _ _ _ _) as [[|e] qb']; [|reflexivity].
  destruct (number_lt _ _); [|reflexivity].
  apply _selectRelations_ext.
  intros name model' qb0 alias' context' depth'.
  unfold createQueryChild, createQuery.
  induction children as [|[k child] rest IH]; simpl; [reflexivity|].
  destruct (String.eqb k name); [reflexivity | exact IH].
Qed.

Lemma createQuery_no_children_map this model args connection qb alias context depth :
  createQuery config this model (Some (mkSelection args None))
    connection qb alias context depth
  = createQuery_null model connection qb.
Proof.
  unfold createQuery, createQuery_null. simpl.
  destruct (getMetadata connection model); reflexivity.
Qed.

Lemma appends_const c : appends (fun qb => (c, qb)).
Proof. intros qb. simpl. now rewrite app_nil_r. Qed.

Lemma createQuery_null_app model connection :
  appends (createQuery_null model connection).
Proof.
  intros qb. unfold createQuery_null.
  destruct (getMetadata connection model); simpl; now rewrite app_nil_r.
Qed.

Lemma createQuery_some_app this connection selection :
  forall model alias context depth,
    appends (fun qb =>
               createQuery config this model (Some selection) connection qb alias context depth).
Proof.
  induction selection as [args|args children IH] using Selection_tree_ind;
    intros model alias context depth qb.
  - rewrite !createQuery_no_children_map. apply createQuery_null_app.
  - rewrite !createQuery_children.
    destruct (getMetadata connection model) as [meta|]; [|simpl; now rewrite app_nil_r].
    cbv zeta.
    rewrite _selectFields_app.
    rewrite (_selectFields_app this []).
    set (fieldCalls := _selectPrimaryKey this [] _ alias ++ map _ _).
    rewrite _selectEmbeddedFields_app.
    rewrite (_selectEmbeddedFields_app this ([] ++ fieldCalls)).
    destruct (_selectEmbeddedFields config this [] _ children meta alias)
      as [[|e] embeddedCalls]; simpl fst; simpl snd; cbv iota; [|simpl; now rewrite app_assoc].
    destruct (number_lt depth (_maxDepth this)); [|simpl; now rewrite app_assoc].
    assert (Hrel : appends (fun qb =>
                _selectRelations config this
                  (createQueryChild config this connection children)
                  qb children (relations meta) alias meta depth)).
    { apply _selectRelations_app.
      intros name model' alias' context' depth' qb'.
      unfold createQueryChild.
      destruct (hash_get children name) as [child|] eqn:Hget.
      - exact (hash_get_Forall
                 (fun child => forall model alias context depth,
                      appends (fun qb => createQuery config this model (Some child)
                                           connection qb alias context depth))
                 _ _ _ IH Hget model' alias' context' depth' qb').
      - apply createQuery_null_app. }
    rewrite (Hrel ((qb ++ fieldCalls) ++ embeddedCalls)).
    rewrite (Hrel (fieldCalls ++ embeddedCalls)).
    simpl. now rewrite !app_assoc.
Qed.

Lemma createQuery_app this model selection connection alias context depth :
  appends (fun qb =>
             createQuery config this model selection connection qb alias context depth).
Proof.
  destruct selection as [selection|].
  - apply createQuery_some_app.
  - apply createQuery_null_app.
Qed.

End ResolverFacts.

(** ** Depth *)

Section Depth.

Variable config : ConfigureLoader.

Lemma _selectRelations_depth0_ext this child child' qb children relations alias meta depth :
  (forall name model qb alias context,
      child name model qb alias context 0%Z = child' name model qb alias context 0%Z) ->
  _selectRelations config this child qb children relations alias meta depth
  = _selectRelations config this child' qb children relations alias meta depth.
Proof.
  intros Hext. unfold _selectRelations.
  apply forEach_relation_ext. intros relation qb0 _.
  destruct (_ || _); [|reflexivity].
  apply Hext.
Qed.

(** Every nested call of [createQuery] runs at depth 0: with a ceiling above
    0, a resolution from the root is the resolution without ceiling. *)
Lemma createQuery_depth_not_threaded this connection selection :
  number_lt 0 (_maxDepth this) = true ->
  forall model qb alias context depth,
    number_lt depth (_maxDepth this) = true ->
    createQuery config this model selection connection qb alias context depth
    = createQuery config (unbounded this) model selection connection qb alias context depth.
Proof.
  intros Hzero.
  destruct selection as [selection|]; [|reflexivity].
  induction selection as [args|args children IH] using Selection_tree_ind;
    intros model qb alias context depth Hdepth.
  - now rewrite !createQuery_no_children_map.
  - rewrite !createQuery_children.
    destruct (getMetadata connection model) as [meta|]; [|reflexivity].
    cbv zeta.
    change (_selectFields (unbounded this)) with (_selectFields this).
    change (_selectEmbeddedFields config (unbounded this))
      with (_selectEmbeddedFields config this).
    destruct (_selectEmbeddedFields _ _ _ _ _ _ _) as [[|e] qb']; [|reflexivity].
    rewrite Hdepth. simpl number_lt.
    change (_selectRelations config (unbounded this))
      with (_selectRelations config this).
    apply _selectRelations_depth0_ext.
    intros name model' qb0 alias' context'.
    unfold createQueryChild.
    destruct (hash_get children name) as [child|] eqn:Hget; [|reflexivity].
    exact (hash_get_Forall
             (fun child => forall model qb alias context depth,
                  number_lt depth (_maxDepth this) = true ->
                  createQuery config this model (Some child) connection qb alias context depth
                  = createQuery config (unbounded this) model (Some child) connection
                      qb alias context depth)
             _ _ _ IH Hget model' qb0 alias' context' 0%Z Hzero).
Qed.

Lemma joins_app qb qb' : joins (qb ++ qb') = joins qb ++ joins qb'.
Proof. apply filter_app. Qed.

Lemma joins_map_AddSelect {A} (call : A -> QBCall) (l : list A) :
  (forall x, is_join (call x) = false) -> joins (map call l) = [].
Proof.
  intros Hcall. induction l as [|x l IH]; simpl; [reflexivity|].
  now rewrite Hcall.
Qed.

Lemma joins__selectFields this qb fields alias :
  joins (_selectFields this qb fields alias) = joins qb.
Proof.
  rewrite _selectFields_app, !joins_app.
  rewrite (joins_map_AddSelect (projectColumn this alias)) by reflexivity.
  unfold _selectPrimaryKey.
  destruct (_primaryKeyColumn this) as [[|c pk]|]; simpl; try now rewrite app_nil_r.
  destruct (find _ fields) as [field|]; simpl.
  - destruct (isPrimary field); simpl; now rewrite app_nil_r.
  - now rewrite app_nil_r.
Qed.

Lemma joins__selectEmbeddedFields this qb embeddedFields children meta alias :
  joins (snd (_selectEmbeddedFields config this qb embeddedFields children meta alias))
  = joins qb.
Proof.
  unfold _selectEmbeddedFields.
  destruct (embeddedFieldsToSelect _ _ _) as [e|flat]; simpl; [reflexivity|].
  unfold addSelect.
  rewrite (fold_addSelect_app
             (fun field => AddSelect (columnSelection (_formatter this) alias field) None)).
  rewrite joins_app, joins_map_AddSelect by reflexivity.
  now rewrite app_nil_r.
Qed.

(** At or beyond the ceiling, [createQuery] adds projections only. *)
Lemma createQuery_at_ceiling_joins_nothing this model selection connection qb alias context depth :
  number_lt depth (_maxDepth this) = false ->
  joins (snd (createQuery config this model selection connection qb alias context depth))
  = joins qb.
Proof.
  intros Hdepth.
  destruct selection as [[args [children|]]|].
  - rewrite createQuery_children.
    destruct (getMetadata connection model) as [meta|]; [|reflexivity].
    cbv zeta. rewrite Hdepth.
    rewrite <- (joins__selectFields this qb (selectedFields config meta children) alias).
    rewrite <- (joins__selectEmbeddedFields this (_selectFields this qb _ alias)
                  (selectedEmbeddedFields config meta children) children meta alias).
    destruct (_selectEmbeddedFields _ _ _ _ _ _ _) as [[|e] qb']; reflexivity.
  - rewrite createQuery_no_children_map. unfold createQuery_null.
    destruct (getMetadata connection model); reflexivity.
  - simpl. unfold createQuery_null.
    destruct (getMetadata connection model); reflexivity.
Qed.

(** C2, as the code has it: with [maxDepth = 0] a resolution from the root (any
    depth from 0 on) adds no join at all to the query builder, neither for a
    relation the client selected nor for one the policy marks required. *)
Theorem createQuery_maxDepth_0_joins_nothing
    this model selection connection qb alias context depth :
  _maxDepth this = Finite 0 ->
  (0 <= depth)%Z ->
  joins (snd (createQuery config this model selection connection qb alias context depth))
  = joins qb.
Proof.
  intros Hmax Hdepth.
  apply createQuery_at_ceiling_joins_nothing.
  rewrite Hmax. simpl. apply Z.ltb_ge. exact Hdepth.
Qed.

(** C4, as the code has it: when the selection is null, or is a node without a
    children map, [createQuery] on a known entity returns the query builder
    as it received it. *)
Theorem createQuery_without_children_unchanged
    this model meta selection connection qb alias context depth :
  getMetadata connection model = Some meta ->
  (selection = None \/ exists node, selection = Some node /\ children node = None) ->
  createQuery config this model selection connection qb alias context depth
  = (Returned, qb).
Proof.
  intros Hmeta [->|[[args ch] [-> Hch]]].
  - simpl. unfold createQuery_null. now rewrite Hmeta.
  - simpl in Hch. subst ch.
    rewrite createQuery_no_children_map. unfold createQuery_null. now rewrite Hmeta.
Qed.

End Depth.

(** C1, at a failing input: with [maxQueryDepth = 1] and the selection
    [books { publisher { name } }] on [Author], the relation [publisher] lies
    one level below the root, at the ceiling, and is joined all the same. *)
Theorem createQuery_joins_at_the_ceiling :
  createQuery Fixture.noPolicy (Fixture.loader (Finite 1)) "Author"
    (Some (Fixture.node
             [("books", Fixture.node
                 [("publisher", Fixture.node [("name", Fixture.leaf)])])]))
    Fixture.connection [] "a" Null 0
  = (Returned,
     [AddSelect "a.id" (Some "a_id");
      LeftJoin "a.books" "b192dbe10b";
      AddSelect "b192dbe10b.id" (Some "b192dbe10b_id");
      LeftJoin "b192dbe10b.publisher" "33d3de2665";
      AddSelect "33d3de2665.id" (Some "33d3de2665_id");
      AddSelect "33d3de2665.name" (Some "33d3de2665_name")]).
Proof. vm_compute. reflexivity. Qed.

(** C2 fails as stated: [Book.publisher] is required and not ignored, and with
    [maxQueryDepth = 0] it is not joined. *)
Lemma required_relation_not_joined_at_maxDepth_0 :
  required_truthy
    (hash_get (getLoaderRequiredFields Fixture.publisherRequired "Book") "publisher") = true
  /\ ignored_truthy
       (hash_get (getLoaderIgnoredFields Fixture.publisherRequired "Book") "publisher") = false
  /\ createQuery Fixture.publisherRequired (Fixture.loader (Finite 0)) "Book"
       (Some (Fixture.node [("title", Fixture.leaf)]))
       Fixture.connection [] "b" Null 0
     = (Returned,
        [AddSelect "b.id" (Some "b_id"); AddSelect "b.title" (Some "b_title")])
  /\ createQuery Fixture.publisherRequired (Fixture.loader Infinity) "Book"
       (Some (Fixture.node [("title", Fixture.leaf)]))
       Fixture.connection [] "b" Null 0
     = (Returned,
        [AddSelect "b.id" (Some "b_id"); AddSelect "b.title" (Some "b_title");
         LeftJoinAndSelect "b.publisher" "99ac44b2e6"]).
Proof. repeat split; vm_compute; reflexivity. Qed.

Lemma createQuery_maxDepth_0_joins_nothing_witness :
  joins (snd (createQuery Fixture.publisherRequired (Fixture.loader (Finite 0)) "Book"
                (Some (Fixture.node [("publisher", Fixture.leaf)]))
                Fixture.connection [LeftJoin "r.book" "b"] "b" Null 0))
  = joins [LeftJoin "r.book" "b"].
Proof.
  apply (createQuery_maxDepth_0_joins_nothing Fixture.publisherRequired
           (Fixture.loader (Finite 0)) "Book"
           (Some (Fixture.node [("publisher", Fixture.leaf)]))
           Fixture.connection [LeftJoin "r.book" "b"] "b" Null 0).
  - reflexivity.
  - lia.
Defined.

(** C3, at a failing input: [Book.publisher] is required and the client also
    selects [publisher { name books { title } }]; after the eager join the
    resolver goes into the sub-selection, projects columns under the child
    alias and joins the nested relation. *)
Theorem required_relation_is_recursed_into :
  createQuery Fixture.publisherRequired (Fixture.loader Infinity) "Book"
    (Some (Fixture.node
             [("publisher", Fixture.node
                 [("name", Fixture.leaf);
                  ("books", Fixture.node [("title", Fixture.leaf)])])]))
    Fixture.connection [] "b" Null 0
  = (Returned,
     [AddSelect "b.id" (Some "b_id");
      LeftJoinAndSelect "b.publisher" "99ac44b2e6";
      AddSelect "99ac44b2e6.id" (Some "99ac44b2e6_id");
      AddSelect "99ac44b2e6.name" (Some "99ac44b2e6_name");
      LeftJoin "99ac44b2e6.books" "d6e19f34e6";
      AddSelect "d6e19f34e6.id" (Some "d6e19f34e6_id");
      AddSelect "d6e19f34e6.title" (Some "d6e19f34e6_title");
      LeftJoinAndSelect "d6e19f34e6.publisher" "9c25a8236c"]).
Proof. vm_compute. reflexivity. Qed.

(** C4 fails as stated: a children map that is present and empty is resolved
    like any other, and the primary key is projected. *)
Lemma empty_children_map_is_resolved :
  children (mkSelection None (Some [])) = Some []
  /\ getMetadata Fixture.connection "Book" = Some Fixture.Book
  /\ createQuery Fixture.noPolicy (Fixture.loader Infinity) "Book"
       (Some (mkSelection None (Some [])))
       Fixture.connection [] "b" Null 0
     = (Returned, [AddSelect "b.id" (Some "b_id")])
  /\ createQuery Fixture.noPolicy (Fixture.loader Infinity) "Book"
       (Some (mkSelection None (Some [])))
       Fixture.connection [] "b" Null 0
     <> (Returned, []).
Proof. repeat split; try (vm_compute; reflexivity). vm_compute. discriminate. Qed.

Lemma createQuery_without_children_unchanged_witness :
  createQuery Fixture.publisherRequired (Fixture.loader Infinity) "Book"
    (Some (mkSelection (Some []) None))
    Fixture.connection [LeftJoin "r.book" "b"] "b" Null 0
  = (Returned, [LeftJoin "r.book" "b"]).
Proof.
  apply (createQuery_without_children_unchanged Fixture.publisherRequired
           (Fixture.loader Infinity) "Book" Fixture.Book
           (Some (mkSelection (Some []) None))
           Fixture.connection [LeftJoin "r.book" "b"] "b" Null 0).
  - reflexivity.
  - right. exists (mkSelection (Some []) None). split; reflexivity.
Defined.

(** C7, at a failing input: [Author.email] is required by a predicate that
    answers false for every context and every list of names; the resolver
    never applies the predicate and projects [email].  The pass that does
    apply it, [_selectRequiredFields], would add nothing for [email]. *)
Theorem predicate_answering_false_still_selects :
  (forall context requested,
      match hash_get (getLoaderRequiredFields Fixture.emailRequiredNever "Author") "email" with
      | Some predicate => isRequiredFor predicate context requested = false
      | None => False
      end)
  /\ createQuery Fixture.emailRequiredNever (Fixture.loader Infinity) "Author"
       (Some (Fixture.node [("firstName", Fixture.leaf)]))
       Fixture.connection [] "a" Null 0
     = (Returned,
        [AddSelect "a.id" (Some "a_id");
         AddSelect "a.firstName" (Some "a_firstName");
         AddSelect "a.email" (Some "a_email")])
  /\ (forall context,
         _selectRequiredFields Fixture.emailRequiredNever (Fixture.loader Infinity) []
           [("firstName", Fixture.leaf)] "a" Fixture.Author context
         = []).
Proof.
  split; [intros; reflexivity|].
  split; [vm_compute; reflexivity | intros; reflexivity].
Qed.

(** ** Field selection and the field policy *)

Section FieldPolicy.

Variable config : ConfigureLoader.

Lemma find_none_not_named (fields : list ColumnMetadata) pk :
  find (fun field => String.eqb (propertyName field) pk) fields = None ->
  forall field, In field fields -> propertyName field <> pk.
Proof.
  intros Hfind field Hin Heq.
  apply (find_none _ _ Hfind) in Hin.
  apply String.eqb_neq in Hin. contradiction.
Qed.

Lemma _selectPrimaryKey_nothing this fields alias :
  _primaryKeyColumn this = None
  \/ _primaryKeyColumn this = Some ""
  \/ (exists field, In field fields /\ _primaryKeyColumn this = Some (propertyName field)) ->
  _selectPrimaryKey this [] fields alias = [].
Proof.
  unfold _selectPrimaryKey.
  intros [->|[->|(field & Hin & ->)]]; try reflexivity.
  destruct (propertyName field) as [|c pk] eqn:Hname; [reflexivity|].
  destruct (find _ fields) as [found|] eqn:Hfind.
  - now destruct (isPrimary found).
  - apply (find_none_not_named _ _ Hfind) in Hin. contradiction.
Qed.

Lemma _selectPrimaryKey_safeguard this fields alias pk :
  _primaryKeyColumn this = Some pk ->
  pk <> "" ->
  (forall field, In field fields -> propertyName field <> pk) ->
  _selectPrimaryKey this [] fields alias
  = [AddSelect (columnSelection (_formatter this) alias pk)
       (Some (aliasField (_formatter this) alias pk))].
Proof.
  unfold _selectPrimaryKey. intros -> Hpk Hnone.
  destruct pk as [|c pk]; [contradiction|].
  destruct (find _ fields) as [found|] eqn:Hfind; [|reflexivity].
  apply find_some in Hfind as [Hin Heq].
  apply String.eqb_eq in Heq. now apply Hnone in Hin.
Qed.

Lemma selectedFields_In meta children field :
  In field (selectedFields config meta children)
  <-> In field (columns meta)
      /\ ignored_truthy
           (hash_get (getLoaderIgnoredFields config (target meta)) (propertyName field)) = false
      /\ (isPrimary field = true
          \/ key_in (propertyName field) children = true
          \/ required_truthy
               (hash_get (getLoaderRequiredFields config (target meta)) (propertyName field))
             = true).
Proof.
  unfold selectedFields. rewrite filter_In, andb_true_iff, negb_true_iff, !orb_true_iff.
  tauto.
Qed.

Lemma key_in_own {T} (k : string) (h : Hash T) :
  inherited k = false -> key_in k h = hash_in k h.
Proof. intros Hk. unfold key_in. rewrite Hk. apply orb_false_r. Qed.

Lemma required_truthy_constant entry :
  is_predicate entry = false ->
  required_truthy entry = true <-> entry = Some (ReqConst true).
Proof.
  destruct entry as [[[|]|predicate]|]; simpl; intros Hentry; split; intros H;
    try reflexivity; discriminate.
Qed.

(** C5, as the code has it: on a node with a children map, [createQuery] appends
    to the query builder, in this order, the primary-key safeguard, one
    projection for each selected column, and what the embedded objects and the
    relations add.  Every selected column is a column of the entity that is
    not ignored.  Among the columns whose required entry, if there is one, is
    a constant boolean, and whose property name is not the name of a member of
    [Object.prototype], the selected ones are exactly those that are not
    ignored and are primary, an own key of the children map, or marked
    required ([true]).  The safeguard is empty when no [primaryKeyColumn] is
    configured (or the empty string) and when the configured name is the name
    of a selected column; when it names no selected column, the safeguard is
    the one projection of that name. *)
Theorem createQuery_projected_columns
    this model meta args children connection qb alias context depth :
  getMetadata connection model = Some meta ->
  let fields := selectedFields config meta children in
  let rest := afterFields config this connection meta children alias depth in
  let requiredFields := getLoaderRequiredFields config (target meta) in
  let ignoredFields := getLoaderIgnoredFields config (target meta) in
  createQuery config this model (Some (mkSelection args (Some children)))
    connection qb alias context depth
  = (fst rest,
     qb ++ _selectPrimaryKey this [] fields alias
        ++ map (projectColumn this alias) fields
        ++ snd rest)
  /\ (forall field,
         In field fields ->
         In field (columns meta)
         /\ ignored_truthy (hash_get ignoredFields (propertyName field)) = false)
  /\ (forall field,
         is_predicate (hash_get requiredFields (propertyName field)) = false ->
         inherited (propertyName field) = false ->
         In field fields
         <-> In field (columns meta)
             /\ ignored_truthy (hash_get ignoredFields (propertyName field)) = false
             /\ (isPrimary field = true
                 \/ hash_in (propertyName field) children = true
                 \/ hash_get requiredFields (propertyName field) = Some (ReqConst true)))
  /\ (_primaryKeyColumn this = None
      \/ _primaryKeyColumn this = Some ""
      \/ (exists field,
             In field fields /\ _primaryKeyColumn this = Some (propertyName field)) ->
      _selectPrimaryKey this [] fields alias = [])
  /\ (forall pk,
         _primaryKeyColumn this = Some pk ->
         pk <> "" ->
         (forall field, In field fields -> propertyName field <> pk) ->
         _selectPrimaryKey this [] fields alias
         = [AddSelect (columnSelection (_formatter this) alias pk)
              (Some (aliasField (_formatter this) alias pk))]).
Proof.
  intros Hmeta fields rest requiredFields ignoredFields.
  split; [|split; [|split; [|split]]].
  - rewrite createQuery_children, Hmeta. cbv zeta.
    fold fields. unfold rest, afterFields. fold fields.
    rewrite _selectFields_app.
    set (fieldCalls := _selectPrimaryKey this [] fields alias ++ map _ fields).
    rewrite _selectEmbeddedFields_app.
    destruct (_selectEmbeddedFields config this [] _ children meta alias)
      as [[|e] embeddedCalls]; simpl fst; simpl snd; cbv iota.
    + destruct (number_lt depth (_maxDepth this)).
      * assert (Hrel : appends (fun qb =>
                  _selectRelations config this
                    (createQueryChild config this connection children)
                    qb children (relations meta) alias meta depth)).
        { apply _selectRelations_app.
          intros name model' alias' context' depth'. unfold createQueryChild.
          apply createQuery_app. }
        rewrite (Hrel ((qb ++ fieldCalls) ++ embeddedCalls)).
        rewrite (Hrel embeddedCalls). simpl. unfold fieldCalls.
        now rewrite <- !app_assoc.
      * simpl. unfold fieldCalls. now rewrite <- !app_assoc.
    + simpl. unfold fieldCalls. now rewrite <- !app_assoc.
  - intros field Hin. apply selectedFields_In in Hin. tauto.
  - intros field Hentry Hname. unfold fields.
    rewrite selectedFields_In, (key_in_own _ _ Hname).
    fold requiredFields ignoredFields.
    rewrite (required_truthy_constant _ Hentry). reflexivity.
  - apply _selectPrimaryKey_nothing.
  - intros pk. apply _selectPrimaryKey_safeguard.
Qed.

(** *** Ignored properties *)

Lemma filter_filter_absorb {A} (keep inner : A -> bool) (l : list A) :
  (forall x, keep x = true -> inner x = true) ->
  filter keep (filter inner l) = filter keep l.
Proof.
  intros Himp. induction l as [|x l IH]; simpl; [reflexivity|].
  destruct (inner x) eqn:Hinner; simpl.
  - now rewrite IH.
  - destruct (keep x) eqn:Hkeep; [|exact IH].
    rewrite (Himp x Hkeep) in Hinner. discriminate.
Qed.

Lemma not_ignored_not_named entity name (property : string) :
  ignored_truthy (hash_get (getLoaderIgnoredFields config entity) name) = true ->
  negb (ignored_truthy (hash_get (getLoaderIgnoredFields config entity) property)) = true ->
  negb (String.eqb property name) = true.
Proof.
  intros Hignored Hkept.
  destruct (String.eqb property name) eqn:Heq; [|reflexivity].
  apply String.eqb_eq in Heq. subst property.
  rewrite Hignored in Hkept. discriminate.
Qed.

Lemma selectedFields_withoutProperty meta name children :
  ignored_truthy (hash_get (getLoaderIgnoredFields config (target meta)) name) = true ->
  selectedFields config (withoutProperty name meta) children
  = selectedFields config meta children.
Proof.
  intros Hignored. unfold selectedFields. simpl.
  apply filter_filter_absorb. intros field Hkeep.
  apply andb_true_iff in Hkeep as [Hkept _].
  exact (not_ignored_not_named _ _ _ Hignored Hkept).
Qed.

Lemma selectedEmbeddedFields_withoutProperty meta name children :
  ignored_truthy (hash_get (getLoaderIgnoredFields config (target meta)) name) = true ->
  selectedEmbeddedFields config (withoutProperty name meta) children
  = selectedEmbeddedFields config meta children.
Proof.
  intros Hignored. unfold selectedEmbeddedFields. simpl.
  apply filter_filter_absorb. intros embed Hkeep.
  apply andb_true_iff in Hkeep as [Hkept _].
  exact (not_ignored_not_named _ _ _ Hignored Hkept).
Qed.

Lemma _selectRelations_withoutProperty this child qb children meta name alias depth :
  ignored_truthy (hash_get (getLoaderIgnoredFields config (target meta)) name) = true ->
  _selectRelations config this child qb children
    (relations (withoutProperty name meta)) alias (withoutProperty name meta) depth
  = _selectRelations config this child qb children (relations meta) alias meta depth.
Proof.
  intros Hignored. unfold _selectRelations. simpl.
  rewrite filter_filter_absorb; [reflexivity|].
  intros relation Hkept.
  exact (not_ignored_not_named _ _ _ Hignored Hkept).
Qed.

Lemma createQuery_connectionWithout this entity name connection selection :
  ignored_truthy (hash_get (getLoaderIgnoredFields config entity) name) = true ->
  forall model qb alias context depth,
    createQuery config this model selection connection qb alias context depth
    = createQuery config this model selection (connectionWithout entity name connection)
        qb alias context depth.
Proof.
  intros Hignored.
  assert (Hnull : forall model qb,
             createQuery_null model connection qb
             = createQuery_null model (connectionWithout entity name connection) qb).
  { intros model qb. unfold createQuery_null. simpl.
    destruct (getMetadata connection model); reflexivity. }
  destruct selection as [selection|]; [|intros; apply Hnull].
  induction selection as [args|args children IH] using Selection_tree_ind;
    intros model qb alias context depth.
  - rewrite !createQuery_no_children_map. apply Hnull.
  - rewrite !createQuery_children. simpl getMetadata.
    destruct (getMetadata connection model) as [meta|]; [|reflexivity].
    cbv zeta.
    assert (Hchild : forall name0 model0 qb0 alias0 context0 depth0,
               createQueryChild config this connection children
                 name0 model0 qb0 alias0 context0 depth0
               = createQueryChild config this (connectionWithout entity name connection)
                   children name0 model0 qb0 alias0 context0 depth0).
    { intros name0 model0 qb0 alias0 context0 depth0. unfold createQueryChild.
      destruct (hash_get children name0) as [child|] eqn:Hget; [|apply Hnull].
      exact (hash_get_Forall
               (fun child => forall model qb alias context depth,
                    createQuery config this model (Some child) connection
                      qb alias context depth
                    = createQuery config this model (Some child)
                        (connectionWithout entity name connection)
                        qb alias context depth)
               _ _ _ IH Hget model0 qb0 alias0 context0 depth0). }
    destruct (String.eqb (target meta) entity) eqn:Htarget.
    + apply String.eqb_eq in Htarget. subst entity.
      rewrite selectedFields_withoutProperty, selectedEmbeddedFields_withoutProperty
        by exact Hignored.
      change (_selectEmbeddedFields config this
                (_selectFields this qb (selectedFields config meta children) alias)
                (selectedEmbeddedFields config meta children) children
                (withoutProperty name meta) alias)
        with (_selectEmbeddedFields config this
                (_selectFields this qb (selectedFields config meta children) alias)
                (selectedEmbeddedFields config meta children) children meta alias).
      destruct (_selectEmbeddedFields _ _ _ _ _ _ _) as [[|e] qb']; [|reflexivity].
      destruct (number_lt depth (_maxDepth this)); [|reflexivity].
      rewrite _selectRelations_withoutProperty by exact Hignored.
      apply _selectRelations_ext. exact Hchild.
    + destruct (_selectEmbeddedFields _ _ _ _ _ _ _) as [[|e] qb']; [|reflexivity].
      destruct (number_lt depth (_maxDepth this)); [|reflexivity].
      apply _selectRelations_ext. exact Hchild.
Qed.

(** C6, as the code has it: a property the policy of an entity type marks
    ignored (whether or not it is also marked required) is not among the
    columns nor among the embedded objects [createQuery] selects for that
    entity type, nor among the relations [_selectRelations] goes through, and
    every resolution gives the query builder it gives on a connection whose
    metadata for that entity type has no column, embedded object or relation
    of that name.  (The primary-key safeguard works from the configured name
    alone and is not part of this statement.) *)
Theorem ignored_property_is_filtered_first this entity name :
  ignored_truthy (hash_get (getLoaderIgnoredFields config entity) name) = true ->
  (forall meta children,
      target meta = entity ->
      (forall field, In field (selectedFields config meta children) ->
                     propertyName field <> name)
      /\ (forall embed, In embed (selectedEmbeddedFields config meta children) ->
                        propertyName embed <> name)
      /\ (forall relation,
             In relation
               (filter
                  (fun relation =>
                     negb (ignored_truthy
                             (hash_get (getLoaderIgnoredFields config (target meta))
                                (propertyName relation))))
                  (relations meta)) ->
             propertyName relation <> name))
  /\ (forall model selection connection qb alias context depth,
         createQuery config this model selection connection qb alias context depth
         = createQuery config this model selection
             (connectionWithout entity name connection) qb alias context depth).
Proof.
  intros Hignored. split.
  - intros meta children <-. split; [|split].
    + intros field Hin Heq. unfold selectedFields in Hin.
      apply filter_In in Hin as [_ Hkeep].
      apply andb_true_iff in Hkeep as [Hkept _].
      rewrite Heq, Hignored in Hkept. discriminate.
    + intros embed Hin Heq. unfold selectedEmbeddedFields in Hin.
      apply filter_In in Hin as [_ Hkeep].
      apply andb_true_iff in Hkeep as [Hkept _].
      rewrite Heq, Hignored in Hkept. discriminate.
    + intros relation Hin Heq.
      apply filter_In in Hin as [_ Hkept].
      rewrite Heq, Hignored in Hkept. discriminate.
  - intros model selection connection qb alias context depth.
    now apply createQuery_connectionWithout.
Qed.

End FieldPolicy.

(** C5 fails as stated: [Book.id] is ignored, and with [primaryKeyColumn]
    set to ["id"] the resolver projects it. *)
Lemma ignored_column_projected_by_safeguard :
  In (Fixture.column "id" true) (columns Fixture.Book)
  /\ ignored_truthy
       (hash_get (getLoaderIgnoredFields Fixture.bookIdIgnored (target Fixture.Book))
          (propertyName (Fixture.column "id" true))) = true
  /\ In (projectColumn (Fixture.loaderWithPrimaryKey "id") "b" (Fixture.column "id" true))
       (snd (createQuery Fixture.bookIdIgnored (Fixture.loaderWithPrimaryKey "id") "Book"
               (Some (Fixture.node [("title", Fixture.leaf)]))
               Fixture.connection [] "b" Null 0)).
Proof.
  split; [|split].
  - left. reflexivity.
  - reflexivity.
  - vm_compute. left. reflexivity.
Qed.

Lemma createQuery_projected_columns_witness :
  createQuery Fixture.publisherRequired (Fixture.loaderWithPrimaryKey "title") "Book"
    (Some (Fixture.node [("publisherId", Fixture.leaf)]))
    Fixture.connection [] "b" Null 0
  = (Returned,
     [AddSelect "b.title" (Some "b_title");
      AddSelect "b.id" (Some "b_id");
      AddSelect "b.publisherId" (Some "b_publisherId");
      LeftJoinAndSelect "b.publisher" "99ac44b2e6"])
  /\ In (Fixture.column "publisherId" false)
       (selectedFields Fixture.publisherRequired Fixture.Book
          [("publisherId", Fixture.leaf)])
  /\ ~ In (Fixture.column "title" false)
         (selectedFields Fixture.publisherRequired Fixture.Book
            [("publisherId", Fixture.leaf)]).
Proof.
  destruct (createQuery_projected_columns Fixture.publisherRequired
              (Fixture.loaderWithPrimaryKey "title") "Book" Fixture.Book
              (Some []) [("publisherId", Fixture.leaf)]
              Fixture.connection [] "b" Null 0 eq_refl) as (Hrun & _ & Hexactly & _).
  split; [|split].
  - unfold Fixture.node. rewrite Hrun. vm_compute. reflexivity.
  - apply (Hexactly (Fixture.column "publisherId" false)); try reflexivity.
    split; [simpl; tauto|]. split; [reflexivity|]. right. left. reflexivity.
  - intros Hin.
    apply (Hexactly (Fixture.column "title" false)) in Hin; try reflexivity.
    destruct Hin as (_ & _ & [Hprimary|[Hkey|Hrequired]]); discriminate.
Defined.

(** C6 fails as stated: [Publisher.id] is both required and ignored, and with
    [primaryKeyColumn] set to ["id"] the resolver projects it. *)
Lemma ignored_required_column_projected_by_safeguard :
  required_truthy
    (hash_get (getLoaderRequiredFields Fixture.publisherIdRequiredIgnored "Publisher") "id")
  = true
  /\ ignored_truthy
       (hash_get (getLoaderIgnoredFields Fixture.publisherIdRequiredIgnored "Publisher") "id")
     = true
  /\ createQuery Fixture.publisherIdRequiredIgnored (Fixture.loaderWithPrimaryKey "id")
       "Publisher" (Some (Fixture.node [("name", Fixture.leaf)]))
       Fixture.connection [] "p" Null 0
     = (Returned,
        [AddSelect "p.id" (Some "p_id"); AddSelect "p.name" (Some "p_name")])
  /\ createQuery Fixture.publisherIdRequiredIgnored (Fixture.loader Infinity)
       "Publisher" (Some (Fixture.node [("name", Fixture.leaf)]))
       Fixture.connection [] "p" Null 0
     = (Returned, [AddSelect "p.name" (Some "p_name")]).
Proof. repeat split; vm_compute; reflexivity. Qed.

Lemma ignored_property_is_filtered_first_witness :
  createQuery Fixture.publisherIdRequiredIgnored (Fixture.loader Infinity) "Book"
    (Some (Fixture.node [("publisher", Fixture.node [("id", Fixture.leaf)])]))
    Fixture.connection [] "b" Null 0
  = createQuery Fixture.publisherIdRequiredIgnored (Fixture.loader Infinity) "Book"
      (Some (Fixture.node [("publisher", Fixture.node [("id", Fixture.leaf)])]))
      (connectionWithout "Publisher" "id" Fixture.connection) [] "b" Null 0.
Proof.
  apply (proj2 (ignored_property_is_filtered_first Fixture.publisherIdRequiredIgnored
                  (Fixture.loader Infinity) "Publisher" "id" eq_refl)).
Defined.

(** ** Child aliases *)

(** The digests of the RFC 1321 test suite. *)
Example digest_hex_RFC1321 :
  MD5.digest_hex "" = "d41d8cd98f00b204e9800998ecf8427e"
  /\ MD5.digest_hex "a" = "0cc175b9c0f1b6a831c399e269772661"
  /\ MD5.digest_hex "abc" = "900150983cd24fb0d6963f7d28e17f72"
  /\ MD5.digest_hex "message digest" = "f96b697d7cb7938d525a2f31aaf161d0"
  /\ MD5.digest_hex "abcdefghijklmnopqrstuvwxyz" = "c3fcd3d76192e4007dfb496cca67e13b"
  /\ MD5.digest_hex "ABCDEFGHIJKLMNOPQRSTUVWXYZabcdefghijklmnopqrstuvwxyz0123456789"
     = "d174ab98d277d9f5a5611c2c9f419d9f"
  /\ MD5.digest_hex
       "12345678901234567890123456789012345678901234567890123456789012345678901234567890"
     = "57edf4a22be3c955ac49da2e2107b67a".
Proof. repeat split; vm_compute; reflexivity. Qed.

Lemma hex_digit_is_hex n : is_hex_digit (MD5.hex_digit n) = true.
Proof.
  destruct n as [|p]; [reflexivity|].
  do 4 (destruct p as [p|p|]; try reflexivity).
Qed.

Lemma digest_hex_length s : String.length (MD5.digest_hex s) = 32.
Proof.
  unfold MD5.digest_hex. cbv zeta.
  generalize (MD5.chunks (Datatypes.length (MD5.pad (MD5.bytes_of s)) / 64) MD5.init
                (MD5.pad (MD5.bytes_of s))).
  intros st. reflexivity.
Qed.

Lemma digest_hex_digits s :
  forallb is_hex_digit (list_ascii_of_string (MD5.digest_hex s)) = true.
Proof.
  unfold MD5.digest_hex. cbv zeta.
  generalize (MD5.chunks (Datatypes.length (MD5.pad (MD5.bytes_of s)) / 64) MD5.init
                (MD5.pad (MD5.bytes_of s))).
  intros st. unfold MD5.hex_word, MD5.hex_byte.
  cbn [list_ascii_of_string forallb].
  rewrite !hex_digit_is_hex. reflexivity.
Qed.

Lemma substring_0_length n s :
  (n <= String.length s)%nat -> String.length (substring 0 n s) = n.
Proof.
  revert s. induction n as [|n IH]; intros s Hlen.
  - now destruct s.
  - destruct s as [|c s]; simpl in *; [lia|].
    rewrite IH; [reflexivity | lia].
Qed.

Lemma substring_0_forallb (P : ascii -> bool) n s :
  forallb P (list_ascii_of_string s) = true ->
  forallb P (list_ascii_of_string (substring 0 n s)) = true.
Proof.
  revert s. induction n as [|n IH]; intros s Hall.
  - now destruct s.
  - destruct s as [|c s]; simpl in *; [reflexivity|].
    apply andb_true_iff in Hall as [Hc Hs].
    now rewrite Hc, IH.
Qed.

Section Aliases.

Variable config : ConfigureLoader.

Lemma createQuery_context_irrelevant
    this model selection connection qb alias context context' depth :
  createQuery config this model selection connection qb alias context depth
  = createQuery config this model selection connection qb alias context' depth.
Proof.
  destruct selection as [[args [children|]]|].
  - now rewrite !createQuery_children.
  - now rewrite !createQuery_no_children_map.
  - reflexivity.
Qed.

Lemma forEach_relation_Forall (P : QBCall -> Prop) body relations :
  (forall relation qb, Forall P qb -> Forall P (snd (body relation qb))) ->
  forall qb, Forall P qb -> Forall P (snd (forEach_relation body relations qb)).
Proof.
  intros Hbody. induction relations as [|relation rest IH]; intros qb Hqb; simpl.
  - exact Hqb.
  - specialize (Hbody relation qb Hqb).
    destruct (body relation qb) as [[|e] qb']; simpl in *.
    + now apply IH.
    + exact Hbody.
Qed.

Lemma Forall_join_derived_selects this root (qb selects : SelectQueryBuilder) :
  Forall (join_derived this root) qb ->
  joins selects = [] ->
  Forall (join_derived this root) (qb ++ selects).
Proof.
  intros Hqb Hselects. apply Forall_app. split; [exact Hqb|].
  induction selects as [|call selects IH]; constructor.
  - destruct call; simpl in *; [exact I | discriminate | discriminate].
  - apply IH. destruct call; simpl in *; [exact Hselects | discriminate | discriminate].
Qed.

Lemma createQuery_null_snd model connection qb :
  snd (createQuery_null model connection qb) = qb.
Proof. unfold createQuery_null. now destruct (getMetadata connection model). Qed.

Lemma createQuery_joins_derived this root connection selection :
  forall model qb alias context depth,
    AliasFrom _generateChildHash root alias ->
    Forall (join_derived this root) qb ->
    Forall (join_derived this root)
      (snd (createQuery config this model selection connection qb alias context depth)).
Proof.
  destruct selection as [selection|];
    [|intros; simpl; now rewrite createQuery_null_snd].
  induction selection as [args|args children IH] using Selection_tree_ind;
    intros model qb alias context depth Halias Hqb.
  - rewrite createQuery_no_children_map. now rewrite createQuery_null_snd.
  - rewrite createQuery_children.
    destruct (getMetadata connection model) as [meta|]; [|exact Hqb].
    cbv zeta.
    assert (Hfields : Forall (join_derived this root)
                        (_selectFields this qb (selectedFields config meta children) alias)).
    { rewrite _selectFields_app.
      apply Forall_join_derived_selects; [exact Hqb|].
      rewrite <- (joins__selectFields this [] (selectedFields config meta children) alias)
        at 2.
      now rewrite _selectFields_app. }
    assert (Hembedded : Forall (join_derived this root)
              (snd (_selectEmbeddedFields config this
                      (_selectFields this qb (selectedFields config meta children) alias)
                      (selectedEmbeddedFields config meta children) children meta alias))).
    { rewrite _selectEmbeddedFields_app. simpl snd.
      apply Forall_join_derived_selects; [exact Hfields|].
      now rewrite joins__selectEmbeddedFields. }
    destruct (_selectEmbeddedFields _ _ _ _ _ _ _) as [[|e] qb']; [|exact Hembedded].
    simpl in Hembedded.
    destruct (number_lt depth (_maxDepth this)); [|exact Hembedded].
    unfold _selectRelations.
    apply forEach_relation_Forall; [|exact Hembedded].
    intros relation qb0 Hqb0.
    destruct (_ || _); [|exact Hqb0].
    assert (Hjoined : forall call,
               join_derived this root call ->
               Forall (join_derived this root)
                 (snd (createQueryChild config this connection children
                         (propertyName relation) (inverseEntityTarget relation)
                         (qb0 ++ [call])
                         (_generateChildHash alias (propertyName relation) 10)
                         (Num (depth + 1)) 0%Z))).
    { intros call Hcall. unfold createQueryChild.
      assert (Hqb1 : Forall (join_derived this root) (qb0 ++ [call])).
      { apply Forall_app. split; [exact Hqb0 | now constructor]. }
      destruct (hash_get children (propertyName relation)) as [child|] eqn:Hget.
      - apply (hash_get_Forall
                 (fun child => forall model qb alias context depth,
                      AliasFrom _generateChildHash root alias ->
                      Forall (join_derived this root) qb ->
                      Forall (join_derived this root)
                        (snd (createQuery config this model (Some child) connection
                                qb alias context depth)))
                 _ _ _ IH Hget).
        + now apply AliasFrom_child.
        + exact Hqb1.
      - simpl. now rewrite createQuery_null_snd. }
    destruct (required_truthy _).
    + apply Hjoined. simpl. exists alias, (propertyName relation). auto.
    + apply Hjoined. simpl. exists alias, (propertyName relation). auto.
Qed.

(** C8: the child alias is the first 10 characters of the hexadecimal MD5
    digest of [alias ++ "__" ++ propertyName], ten hexadecimal digits that
    depend on that pair alone.  Two resolutions of the same selection on the
    same entity from the same root alias, whatever the query builders and the
    contexts they start from, complete alike and append the same calls; every
    join among them carries the child hash of its parent alias and relation
    name, the parent being the root alias or the alias of a join above it. *)
Theorem child_aliases_are_deterministic :
  (forall alias propertyName,
      _generateChildHash alias propertyName 10
      = substring 0 10 (MD5.digest_hex (alias ++ "__" ++ propertyName)%string)
      /\ String.length (_generateChildHash alias propertyName 10) = 10
      /\ forallb is_hex_digit
           (list_ascii_of_string (_generateChildHash alias propertyName 10)) = true)
  /\ (forall this model selection connection qb qb' alias context context' depth,
         exists completion calls,
           createQuery config this model selection connection qb alias context depth
           = (completion, qb ++ calls)
           /\ createQuery config this model selection connection qb' alias context' depth
              = (completion, qb' ++ calls)
           /\ Forall (join_derived this alias) calls).
Proof.
  split.
  - intros alias propertyName.
    assert (Heq : _generateChildHash alias propertyName 10
                  = substring 0 10 (MD5.digest_hex (alias ++ "__" ++ propertyName)%string))
      by reflexivity.
    rewrite Heq. split; [reflexivity|]. split.
    + apply substring_0_length. rewrite digest_hex_length. lia.
    + apply substring_0_forallb, digest_hex_digits.
  - intros this model selection connection qb qb' alias context context' depth.
    exists (fst (createQuery config this model selection connection [] alias context depth)),
      (snd (createQuery config this model selection connection [] alias context depth)).
    split; [|split].
    + apply (createQuery_app config this model selection connection alias context depth qb).
    + rewrite (createQuery_context_irrelevant this model selection connection qb'
                 alias context' context depth).
      apply (createQuery_app config this model selection connection alias context depth qb').
    + apply createQuery_joins_derived; constructor.
Qed.

End Aliases.

(** * Properties of the selection parser *)

(** ** Dictionaries *)

Lemma hash_get_set_eq {T} (h : Hash T) k v : hash_get (hash_set h k v) k = Some v.
Proof.
  induction h as [|[k' v'] h IH]; simpl.
  - now rewrite String.eqb_refl.
  - destruct (String.eqb k' k) eqn:Heq; simpl; now rewrite Heq.
Qed.

Lemma hash_get_set_neq {T} (h : Hash T) k k' v :
  k' <> k -> hash_get (hash_set h k v) k' = hash_get h k'.
Proof.
  intros Hneq. induction h as [|[k0 v0] h IH]; simpl.
  - apply String.eqb_neq in Hneq. rewrite String.eqb_sym in Hneq. now rewrite Hneq.
  - destruct (String.eqb k0 k) eqn:Heq; simpl.
    + apply String.eqb_eq in Heq. subst k0.
      apply not_eq_sym, String.eqb_neq in Hneq. now rewrite Hneq.
    + now rewrite IH.
Qed.

Lemma hash_keys_set_present {T} (h : Hash T) k v v' :
  hash_get h k = Some v' -> hash_keys (hash_set h k v) = hash_keys h.
Proof.
  unfold hash_keys. induction h as [|[k0 v0] h IH]; simpl; [discriminate|].
  destruct (String.eqb k0 k) eqn:Heq; simpl; [reflexivity|].
  intros Hget. now rewrite IH.
Qed.

Lemma hash_keys_set_absent {T} (h : Hash T) k v :
  hash_get h k = None -> hash_keys (hash_set h k v) = hash_keys h ++ [k].
Proof.
  unfold hash_keys. induction h as [|[k0 v0] h IH]; simpl; [reflexivity|].
  destruct (String.eqb k0 k) eqn:Heq; simpl; [discriminate|].
  intros Hget. now rewrite IH.
Qed.

Lemma hash_get_None_keys {T} (h : Hash T) k :
  hash_get h k = None <-> ~ In k (hash_keys h).
Proof.
  unfold hash_keys. induction h as [|[k0 v0] h IH]; simpl; [tauto|].
  destruct (String.eqb k0 k) eqn:Heq.
  - apply String.eqb_eq in Heq. split; [discriminate | tauto].
  - apply String.eqb_neq in Heq. rewrite IH. tauto.
Qed.

Lemma NoDup_hash_keys_set {T} (h : Hash T) k v :
  NoDup (hash_keys h) -> NoDup (hash_keys (hash_set h k v)).
Proof.
  intros Hnodup. destruct (hash_get h k) as [v'|] eqn:Hget.
  - now rewrite (hash_keys_set_present h k v v' Hget).
  - rewrite (hash_keys_set_absent h k v Hget).
    apply NoDup_app; [exact Hnodup | constructor; [intros [] | constructor] |].
    intros k0 Hin [<-|[]]. now apply hash_get_None_keys in Hget.
Qed.

Lemma hash_in_get {T} (h : Hash T) k :
  hash_in k h = match hash_get h k with Some _ => true | None => false end.
Proof. reflexivity. Qed.

(** ** Union merge *)

Lemma AllHaveChildren_nil : AllHaveChildren [].
Proof. intros k child. discriminate. Qed.

Lemma Merged_nil_new existing : AllHaveChildren existing -> Merged existing [] existing.
Proof.
  intros Hall. constructor. intros k. simpl.
  destruct (hash_get existing k) as [node|] eqn:Hget; constructor.
  exact (Hall k node Hget).
Qed.

Lemma Merged_at existing new merged k :
  Merged existing new merged ->
  MergedAt (hash_get existing k) (hash_get new k) (hash_get merged k).
Proof. intros [? ? ? Hkeys]. apply Hkeys. Qed.

Lemma Merged_set_new existing new merged k node :
  hash_get existing k = None ->
  Merged existing new merged ->
  Merged existing (hash_set new k node) (hash_set merged k node).
Proof.
  intros Hexisting Hmerged. constructor. intros k'.
  destruct (String.eqb k' k) eqn:Heq.
  - apply String.eqb_eq in Heq. subst k'.
    rewrite !hash_get_set_eq, Hexisting. constructor.
  - apply String.eqb_neq in Heq. rewrite !hash_get_set_neq by exact Heq.
    now apply Merged_at.
Qed.

Lemma Merged_set_both existing new merged k args children args' children' merged' :
  hash_get existing k = Some (mkSelection args (Some children)) ->
  Merged children children' merged' ->
  Merged existing new merged ->
  Merged existing (hash_set new k (mkSelection args' (Some children')))
    (hash_set merged k (mkSelection args (Some merged'))).
Proof.
  intros Hexisting Hchildren Hmerged. constructor. intros k'.
  destruct (String.eqb k' k) eqn:Heq.
  - apply String.eqb_eq in Heq. subst k'.
    rewrite !hash_get_set_eq, Hexisting. now constructor.
  - apply String.eqb_neq in Heq. rewrite !hash_get_set_neq by exact Heq.
    now apply Merged_at.
Qed.

Lemma Merged_hash_in existing new merged k :
  Merged existing new merged ->
  hash_in k merged = hash_in k existing || hash_in k new.
Proof.
  intros Hmerged. apply (Merged_at _ _ _ k) in Hmerged.
  rewrite !hash_in_get. now destruct Hmerged.
Qed.

Lemma Merged_get_existing existing new merged k :
  Merged existing new merged ->
  hash_in k new = false ->
  hash_get merged k = hash_get existing k.
Proof.
  intros Hmerged. apply (Merged_at _ _ _ k) in Hmerged.
  rewrite hash_in_get. destruct Hmerged; intros Hnew; try reflexivity; discriminate.
Qed.

Lemma Merged_get_new existing new merged k :
  Merged existing new merged ->
  hash_in k existing = false ->
  hash_get merged k = hash_get new k.
Proof.
  intros Hmerged. apply (Merged_at _ _ _ k) in Hmerged.
  rewrite hash_in_get. destruct Hmerged; intros Hexisting; try reflexivity; discriminate.
Qed.

(** ** [flattenAST] *)

Lemma Fueled_bind_Done {A B} (m : Fueled A) (k : A -> Fueled B) b :
  Fueled_bind m k = Done b -> exists a, m = Done a /\ k a = Done b.
Proof. destruct m as [a| |]; simpl; [eauto | discriminate | discriminate]. Qed.

Section FlattenStep.

Variable info : FieldNodeInfo.
Variable flatten :
  option ASTNode -> FieldNodeInfo -> Hash Selection -> Fueled (Hash Selection).

(** The hypothesis on the nested calls: a call that succeeds on [new] succeeds
    on any union merge of [existing] and [new], with the union merge of
    [existing] and its result. *)
Hypothesis flatten_Merged :
  forall ast new result existing merged,
    flatten ast info new = Done result ->
    Merged existing new merged ->
    exists merged',
      flatten ast info merged = Done merged' /\ Merged existing result merged'.

Lemma flattenSelection_Merged n new result existing merged :
  flattenSelection flatten info new n = Done result ->
  Merged existing new merged ->
  exists merged',
    flattenSelection flatten info merged n = Done merged'
    /\ Merged existing result merged'.
Proof.
  unfold flattenSelection. cbv zeta. intros Hrun Hmerged.
  destruct (isFragment n); [now apply (flatten_Merged _ new)|].
  pose proof (Merged_at _ _ _ (nodeName n) Hmerged) as Hat.
  inversion Hat as [Hx Ha Ho
                   | node Hnode Hx Ha Ho
                   | node Hx Ha Ho
                   | args children args' children' merged0 Hchildren Hx Ha Ho];
    rewrite <- Ha in Hrun; clear Hat.
  - (* a new name on both sides *)
    destruct (inherited (nodeName n));
      [apply Fueled_bind_Done in Hrun as [? [_ Hrun]]; discriminate|].
    apply Fueled_bind_Done in Hrun as [decoded [Hdecoded Hrun]].
    apply Fueled_bind_Done in Hrun as [nodeChildren [Hown Hrun]].
    injection Hrun as <-.
    rewrite Hdecoded, Hown. simpl. eexists. split; [reflexivity|].
    apply Merged_set_new; [now symmetry | exact Hmerged].
  - (* the name exists only in [existing]: created on one side, merged on the other *)
    destruct (inherited (nodeName n));
      [apply Fueled_bind_Done in Hrun as [? [_ Hrun]]; discriminate|].
    apply Fueled_bind_Done in Hrun as [decoded [Hdecoded Hrun]].
    apply Fueled_bind_Done in Hrun as [nodeChildren [Hown Hrun]].
    injection Hrun as <-.
    destruct Hnode as [args children Hall].
    destruct (flatten_Merged _ _ _ children children Hown (Merged_nil_new _ Hall))
      as [merged' [Hrun' Hmerged']].
    rewrite Hrun'. simpl. eexists. split; [reflexivity|].
    eapply Merged_set_both; [symmetry; exact Hx | exact Hmerged' | exact Hmerged].
  - (* the name exists only in [new]: the same node on both sides *)
    destruct node as [args [children|]].
    + apply Fueled_bind_Done in Hrun as [nodeChildren [Hown Hrun]].
      injection Hrun as <-.
      rewrite Hown. simpl. eexists. split; [reflexivity|].
      apply Merged_set_new; [now symmetry | exact Hmerged].
    + apply Fueled_bind_Done in Hrun as [? [_ Hrun]]. discriminate.
  - (* the name exists on both sides *)
    apply Fueled_bind_Done in Hrun as [nodeChildren [Hown Hrun]].
    injection Hrun as <-.
    destruct (flatten_Merged _ _ _ _ _ Hown Hchildren) as [merged' [Hrun' Hmerged']].
    rewrite Hrun'. simpl. eexists. split; [reflexivity|].
    eapply Merged_set_both; [symmetry; exact Hx | exact Hmerged' | exact Hmerged].
Qed.

Lemma reduce_flattenSelection_Merged selections :
  forall new result existing merged,
    reduce (flattenSelection flatten info) selections new = Done result ->
    Merged existing new merged ->
    exists merged',
      reduce (flattenSelection flatten info) selections merged = Done merged'
      /\ Merged existing result merged'.
Proof.
  induction selections as [|n selections IH]; intros new result existing merged Hrun Hmerged;
    simpl in *.
  - injection Hrun as <-. eauto.
  - apply Fueled_bind_Done in Hrun as [new' [Hstep Hrun]].
    destruct (flattenSelection_Merged _ _ _ _ _ Hstep Hmerged) as [merged1 [Hstep' Hmerged1]].
    rewrite Hstep'. simpl. now apply (IH new').
Qed.

End FlattenStep.

Lemma flattenAST_Merged fuel info :
  forall ast new result existing merged,
    flattenAST fuel ast info new = Done result ->
    Merged existing new merged ->
    exists merged',
      flattenAST fuel ast info merged = Done merged' /\ Merged existing result merged'.
Proof.
  induction fuel as [|fuel IH]; intros ast new result existing merged Hrun Hmerged;
    simpl in *; [discriminate|].
  now apply (reduce_flattenSelection_Merged info (flattenAST fuel) IH _ new).
Qed.

(** *** Invariants of [flattenAST] *)

(** A property of dictionaries that every successful [flattenAST] preserves,
    given that the step of a field node preserves it. *)
Lemma flattenAST_preserves (P : Hash Selection -> Prop) fuel info :
  (forall fuel' flattened n out,
      (forall ast obj out, flattenAST fuel' ast info obj = Done out -> P obj -> P out) ->
      isFragment n = false ->
      flattenSelection (flattenAST fuel') info flattened n = Done out ->
      P flattened -> P out) ->
  forall ast obj out, flattenAST fuel ast info obj = Done out -> P obj -> P out.
Proof.
  intros Hfield. induction fuel as [|fuel IH]; intros ast obj out Hrun Hobj;
    simpl in Hrun; [discriminate|].
  revert obj Hrun Hobj.
  induction (getSelections ast) as [|n selections IHsel]; intros obj Hrun Hobj; simpl in Hrun.
  - now injection Hrun as <-.
  - apply Fueled_bind_Done in Hrun as [obj' [Hstep Hrun]].
    apply (IHsel obj' Hrun).
    destruct (isFragment n) eqn:Hfragment.
    + unfold flattenSelection in Hstep. rewrite Hfragment in Hstep.
      exact (IH _ _ _ Hstep Hobj).
    + exact (Hfield fuel obj n obj' IH Hfragment Hstep Hobj).
Qed.

(** The three outcomes of the step on a field node. *)
Lemma flattenSelection_field flatten info flattened n out :
  isFragment n = false ->
  flattenSelection flatten info flattened n = Done out ->
  (exists args existingChildren merged,
      hash_get flattened (nodeName n) = Some (mkSelection args (Some existingChildren))
      /\ flatten (Some n) info existingChildren = Done merged
      /\ out = hash_set flattened (nodeName n) (mkSelection args (Some merged)))
  \/ (exists decoded nodeChildren,
         hash_get flattened (nodeName n) = None
         /\ decodeArguments (nodeArguments n) = inr decoded
         /\ flatten (Some n) info [] = Done nodeChildren
         /\ out = hash_set flattened (nodeName n)
                    (mkSelection (Some decoded) (Some nodeChildren))).
Proof.
  unfold flattenSelection. cbv zeta. intros -> Hrun.
  destruct (hash_get flattened (nodeName n)) as [[args [existingChildren|]]|].
  - apply Fueled_bind_Done in Hrun as [merged [Hown Hrun]]. injection Hrun as <-.
    left. now exists args, existingChildren, merged.
  - apply Fueled_bind_Done in Hrun as [? [_ Hrun]]. discriminate.
  - destruct (inherited (nodeName n));
      [apply Fueled_bind_Done in Hrun as [? [_ Hrun]]; discriminate|].
    apply Fueled_bind_Done in Hrun as [decoded [Hdecoded Hrun]].
    apply Fueled_bind_Done in Hrun as [nodeChildren [Hown Hrun]]. injection Hrun as <-.
    right. exists decoded, nodeChildren. repeat split; try assumption.
    destruct (decodeArguments (nodeArguments n)); simpl in Hdecoded;
      [discriminate | now injection Hdecoded as ->].
Qed.

(** A field the step creates a node for has no inherited name. *)
Lemma flattenSelection_creates_own_name flatten info flattened n out :
  isFragment n = false ->
  flattenSelection flatten info flattened n = Done out ->
  hash_get flattened (nodeName n) = None ->
  inherited (nodeName n) = false.
Proof.
  unfold flattenSelection. cbv zeta. intros -> Hrun Hget. rewrite Hget in Hrun.
  destruct (inherited (nodeName n)); [|reflexivity].
  apply Fueled_bind_Done in Hrun as [? [_ Hrun]]. discriminate.
Qed.

Lemma AllHaveChildren_set h k args children :
  AllHaveChildren h -> AllHaveChildren children ->
  AllHaveChildren (hash_set h k (mkSelection args (Some children))).
Proof.
  intros Hh Hchildren k' child.
  destruct (String.eqb k' k) eqn:Heq.
  - apply String.eqb_eq in Heq. subst k'. rewrite hash_get_set_eq.
    intros [= <-]. now constructor.
  - apply String.eqb_neq in Heq. rewrite hash_get_set_neq by exact Heq. apply Hh.
Qed.

Lemma flattenAST_AllHaveChildren fuel info ast obj out :
  flattenAST fuel ast info obj = Done out -> AllHaveChildren obj -> AllHaveChildren out.
Proof.
  apply (flattenAST_preserves AllHaveChildren). clear.
  intros fuel flattened n out IH Hfield Hstep Hall.
  destruct (flattenSelection_field _ _ _ _ _ Hfield Hstep)
    as [(args & existingChildren & merged & Hget & Hown & ->)
       |(decoded & nodeChildren & Hget & _ & Hown & ->)].
  - apply AllHaveChildren_set; [exact Hall|].
    apply (IH _ _ _ Hown).
    pose proof (Hall _ _ Hget) as Hnode. now inversion Hnode.
  - apply AllHaveChildren_set; [exact Hall|].
    exact (IH _ _ _ Hown AllHaveChildren_nil).
Qed.

Lemma flattenAST_NoDup_keys fuel info ast obj out :
  flattenAST fuel ast info obj = Done out ->
  NoDup (hash_keys obj) -> NoDup (hash_keys out).
Proof.
  apply (flattenAST_preserves (fun h => NoDup (hash_keys h))). clear.
  intros fuel flattened n out IH Hfield Hstep Hnodup.
  destruct (flattenSelection_field _ _ _ _ _ Hfield Hstep)
    as [(args & existingChildren & merged & _ & _ & ->)
       |(decoded & nodeChildren & _ & _ & _ & ->)];
    now apply NoDup_hash_keys_set.
Qed.

Lemma flattenAST_keeps_arguments fuel info ast obj out k node :
  flattenAST fuel ast info obj = Done out ->
  hash_get obj k = Some node ->
  exists node', hash_get out k = Some node' /\ arguments node' = arguments node.
Proof.
  intros Hrun Hget.
  apply (flattenAST_preserves
           (fun h => exists node', hash_get h k = Some node'
                                   /\ arguments node' = arguments node)
           fuel info) with (ast := ast) (obj := obj); [|exact Hrun|eauto].
  clear. intros fuel flattened n out _ Hfield Hstep (node' & Hget & Hargs).
  destruct (String.eqb k (nodeName n)) eqn:Heq.
  - apply String.eqb_eq in Heq. subst k.
    destruct (flattenSelection_field _ _ _ _ _ Hfield Hstep)
      as [(args & existingChildren & merged & Hget' & _ & ->)
         |(decoded & nodeChildren & Hget' & _ & _ & ->)].
    + rewrite hash_get_set_eq. eexists. split; [reflexivity|].
      rewrite Hget in Hget'. injection Hget' as ->. exact Hargs.
    + rewrite Hget in Hget'. discriminate.
  - apply String.eqb_neq in Heq.
    destruct (flattenSelection_field _ _ _ _ _ Hfield Hstep)
      as [(args & existingChildren & merged & _ & _ & ->)
         |(decoded & nodeChildren & _ & _ & _ & ->)];
      rewrite hash_get_set_neq by exact Heq; eauto.
Qed.

(** More fuel does not change a result. *)
Lemma reduce_ext_Done {A B} (step step' : B -> A -> Fueled B) l :
  (forall acc x out, step acc x = Done out -> step' acc x = Done out) ->
  forall init out, reduce step l init = Done out -> reduce step' l init = Done out.
Proof.
  intros Hstep. induction l as [|x l IH]; intros init out Hrun; simpl in *; [exact Hrun|].
  apply Fueled_bind_Done in Hrun as [acc [Hx Hrun]].
  rewrite (Hstep _ _ _ Hx). simpl. now apply IH.
Qed.

Lemma flattenAST_more_fuel fuel info :
  forall ast obj out,
    flattenAST fuel ast info obj = Done out ->
    flattenAST (S fuel) ast info obj = Done out.
Proof.
  induction fuel as [|fuel IH]; intros ast obj out Hrun; [discriminate|].
  change (reduce (flattenSelection (flattenAST (S fuel)) info) (getSelections ast) obj
          = Done out).
  change (reduce (flattenSelection (flattenAST fuel) info) (getSelections ast) obj
          = Done out) in Hrun.
  revert Hrun. apply reduce_ext_Done.
  intros acc n out'. unfold flattenSelection. cbv zeta.
  destruct (isFragment n); [apply IH|].
  destruct (hash_get acc (nodeName n)) as [[args [existingChildren|]]|]; intros Hstep.
  - apply Fueled_bind_Done in Hstep as [merged [Hown Hstep]].
    now rewrite (IH _ _ _ Hown).
  - apply Fueled_bind_Done in Hstep as [? [_ Hstep]]. discriminate.
  - destruct (inherited (nodeName n));
      [apply Fueled_bind_Done in Hstep as [? [_ Hstep]]; discriminate|].
    apply Fueled_bind_Done in Hstep as [decoded [Hdecoded Hstep]].
    apply Fueled_bind_Done in Hstep as [nodeChildren [Hown Hstep]].
    now rewrite Hdecoded, (IH _ _ _ Hown).
Qed.

Lemma reduce_app {A B} (step : B -> A -> Fueled B) l l' init :
  reduce step (l ++ l') init = (acc <- reduce step l init ;; reduce step l' acc).
Proof.
  revert init. induction l as [|x l IH]; intros init; simpl; [reflexivity|].
  destruct (step init x) as [acc| |]; simpl; [apply IH | reflexivity | reflexivity].
Qed.

Lemma reduce_more_fuel fuel info selections obj out :
  reduce (flattenSelection (flattenAST fuel) info) selections obj = Done out ->
  reduce (flattenSelection (flattenAST (S fuel)) info) selections obj = Done out.
Proof.
  intros Hrun.
  apply (flattenAST_more_fuel (S fuel) info (Some (InlineFragmentNode selections))).
  exact Hrun.
Qed.

(** The step on a field whose name is already there. *)
Lemma flattenSelection_existing fuel info flattened n args existingChildren ownChildren :
  isFragment n = false ->
  hash_get flattened (nodeName n) = Some (mkSelection args (Some existingChildren)) ->
  AllHaveChildren existingChildren ->
  flattenAST fuel (Some n) info [] = Done ownChildren ->
  exists merged,
    flattenSelection (flattenAST fuel) info flattened n
    = Done (hash_set flattened (nodeName n) (mkSelection args (Some merged)))
    /\ Merged existingChildren ownChildren merged.
Proof.
  intros Hfield Hget Hall Hown.
  destruct (flattenAST_Merged fuel info _ _ _ _ _ Hown (Merged_nil_new _ Hall))
    as [merged [Hrun Hmerged]].
  exists merged. split; [|exact Hmerged].
  unfold flattenSelection. cbv zeta. now rewrite Hfield, Hget, Hrun.
Qed.

(** Two fields of one name that make up a selection set. *)
Lemma flattenAST_two_occurrences fuel info ast name args1 set1 args2 set2
    decoded children1 children2 :
  getSelections ast = [FieldNode name args1 set1; FieldNode name args2 set2] ->
  inherited name = false ->
  decodeArguments args1 = inr decoded ->
  flattenAST fuel (Some (FieldNode name args1 set1)) info [] = Done children1 ->
  flattenAST fuel (Some (FieldNode name args2 set2)) info [] = Done children2 ->
  exists merged,
    flattenAST (S fuel) ast info []
    = Done [(name, mkSelection (Some decoded) (Some merged))]
    /\ Merged children1 children2 merged.
Proof.
  intros Hselections Hname Hdecoded Hfirst Hsecond.
  assert (Hall : AllHaveChildren children1)
    by exact (flattenAST_AllHaveChildren _ _ _ _ _ Hfirst AllHaveChildren_nil).
  destruct (flattenSelection_existing fuel info
              [(name, mkSelection (Some decoded) (Some children1))]
              (FieldNode name args2 set2) (Some decoded) children1 children2)
    as [merged [Hstep Hmerged]]; try assumption; try reflexivity.
  { simpl. now rewrite String.eqb_refl. }
  exists merged. split; [|exact Hmerged].
  simpl flattenAST. rewrite Hselections. simpl reduce.
  unfold flattenSelection at 1. cbv zeta. simpl isFragment. simpl hash_get.
  simpl nodeName. rewrite Hname.
  simpl nodeArguments. rewrite Hdecoded. simpl Fueled_of. simpl Fueled_bind.
  rewrite Hfirst. simpl Fueled_bind. simpl hash_set.
  rewrite Hstep. simpl. now rewrite String.eqb_refl.
Qed.

(** ** Termination on acyclic documents *)

Lemma flattenAST_fuel_le fuel fuel' info ast obj out :
  fuel <= fuel' ->
  flattenAST fuel ast info obj = Done out ->
  flattenAST fuel' ast info obj = Done out.
Proof.
  induction 1 as [|fuel' _ IH]; intros Hrun; [exact Hrun|].
  apply flattenAST_more_fuel. exact (IH Hrun).
Qed.

Lemma Flattens_le info ast fuel fuel' :
  fuel <= fuel' -> Flattens info ast fuel -> Flattens info ast fuel'.
Proof.
  intros Hle Hflattens fuel'' obj Hle' Hobj.
  apply Hflattens; [lia | exact Hobj].
Qed.

Lemma Flattens_undefined info : Flattens info None 1.
Proof.
  intros fuel' obj Hle _. destruct fuel' as [|fuel']; [lia|].
  exists obj. reflexivity.
Qed.

(** One step of the [reduce], from the results for the nodes it calls
    [flattenAST] on. *)
Lemma flattenSelection_returns info fuel n flattened :
  Flattens info (if isFragment n then getAST n info else Some n) fuel ->
  (isFragment n = false ->
   inherited (nodeName n) = false
   /\ exists decoded, decodeArguments (nodeArguments n) = inr decoded) ->
  forall fuel', fuel <= fuel' ->
  AllHaveChildren flattened ->
  exists out,
    flattenSelection (flattenAST fuel') info flattened n = Done out
    /\ AllHaveChildren out.
Proof.
  intros Hflattens Hdecodes fuel' Hle Hall.
  assert (Hwf : forall out,
             flattenSelection (flattenAST fuel') info flattened n = Done out ->
             AllHaveChildren out).
  { intros out Hstep.
    apply (flattenAST_AllHaveChildren (S fuel') info
             (Some (InlineFragmentNode [n])) flattened out); [|exact Hall].
    simpl. now rewrite Hstep. }
  assert (Hout : exists out, flattenSelection (flattenAST fuel') info flattened n = Done out);
    [|destruct Hout as [out Hout]; eauto].
  unfold flattenSelection. cbv zeta.
  destruct (isFragment n).
  - now apply Hflattens.
  - destruct (Hdecodes eq_refl) as [Hname [decoded Hdecoded]].
    destruct (hash_get flattened (nodeName n)) as [[args [existingChildren|]]|] eqn:Hget.
    + destruct (Hflattens fuel' existingChildren Hle) as [merged Hmerged].
      { pose proof (Hall _ _ Hget) as Hnode. now inversion Hnode. }
      rewrite Hmerged. simpl. eauto.
    + pose proof (Hall _ _ Hget) as Hnode. inversion Hnode.
    + rewrite Hname, Hdecoded. simpl.
      destruct (Hflattens fuel' [] Hle AllHaveChildren_nil) as [nodeChildren Hown].
      rewrite Hown. simpl. eauto.
Qed.

Lemma reduce_flattenSelection_returns info selections :
  (forall n, In n selections ->
             exists fuel,
               Flattens info (if isFragment n then getAST n info else Some n) fuel
               /\ (isFragment n = false ->
                   inherited (nodeName n) = false
                   /\ exists decoded, decodeArguments (nodeArguments n) = inr decoded)) ->
  exists fuel,
    forall fuel' flattened,
      fuel <= fuel' -> AllHaveChildren flattened ->
      exists out,
        reduce (flattenSelection (flattenAST fuel') info) selections flattened = Done out.
Proof.
  induction selections as [|n selections IH]; intros Hnodes.
  - exists 0. intros fuel' flattened _ _. simpl. eauto.
  - destruct (Hnodes n (or_introl eq_refl)) as [fuel1 [Hflattens Hdecodes]].
    destruct (IH (fun n' Hin => Hnodes n' (or_intror Hin))) as [fuel2 Hrest].
    exists (Nat.max fuel1 fuel2). intros fuel' flattened Hle Hall. simpl.
    destruct (flattenSelection_returns info fuel1 n flattened Hflattens Hdecodes fuel')
      as [out [Hstep Hout]]; [lia | exact Hall |].
    rewrite Hstep. simpl. apply Hrest; [lia | exact Hout].
Qed.

Lemma Flattens_selections info ast :
  (forall n, In n (getSelections ast) ->
             exists fuel,
               Flattens info (if isFragment n then getAST n info else Some n) fuel
               /\ (isFragment n = false ->
                   inherited (nodeName n) = false
                   /\ exists decoded, decodeArguments (nodeArguments n) = inr decoded)) ->
  exists fuel, Flattens info ast fuel.
Proof.
  intros Hnodes.
  destruct (reduce_flattenSelection_returns info _ Hnodes) as [fuel Hreduce].
  exists (S fuel). intros fuel' obj Hle Hall.
  destruct fuel' as [|fuel']; [lia|].
  simpl. apply Hreduce; [lia | exact Hall].
Qed.

Lemma Normalizable_decodes info rank bound n :
  Normalizable info rank bound n ->
  exists decoded, decodeArguments (nodeArguments n) = inr decoded.
Proof. intros [name args selectionSet decoded _ Hdecoded _| | |]; simpl; eauto. Qed.

Lemma Normalizable_own_name info rank bound n :
  Normalizable info rank bound n ->
  isFragment n = false -> inherited (nodeName n) = false.
Proof. intros [name args selectionSet decoded Hname _ _| | |]; simpl; auto; discriminate. Qed.

(** On an acyclic document [flattenAST] returns, for every node and from
    every dictionary of nodes with children maps. *)
Lemma flattenAST_returns info rank :
  Acyclic info rank ->
  forall bound n,
    Normalizable info rank bound n ->
    exists fuel, Flattens info (Some n) fuel.
Proof.
  intros Hacyclic bound.
  induction bound as [bound IHbound] using lt_wf_ind.
  assert (Hchild : forall s,
             Normalizable info rank bound s ->
             (exists fuel, Flattens info (Some s) fuel) ->
             exists fuel,
               Flattens info (if isFragment s then getAST s info else Some s) fuel
               /\ (isFragment s = false ->
                   inherited (nodeName s) = false
                   /\ exists decoded, decodeArguments (nodeArguments s) = inr decoded)).
  { intros s Hs [fuel Hflattens].
    pose proof (Normalizable_own_name _ _ _ _ Hs) as Hname.
    pose proof (Normalizable_decodes _ _ _ _ Hs) as Hdecodes.
    destruct s as [name args selectionSet|selections|name|name selections]; simpl.
    - exists fuel. split; [exact Hflattens|]. intros _.
      split; [exact (Hname eq_refl) | exact Hdecodes].
    - exists fuel. split; [exact Hflattens | discriminate].
    - inversion Hs as [| |name' Hrank|]; subst.
      destruct (hash_get (fragments info) name) as [definition|] eqn:Hget.
      + destruct (IHbound (rank name) (Hrank _ eq_refl) definition
                    (Hacyclic _ _ Hget)) as [fuel' Hdefinition].
        exists fuel'. split; [exact Hdefinition | discriminate].
      + exists 1. split; [apply Flattens_undefined | discriminate].
    - exists fuel. split; [exact Hflattens|]. intros _.
      split; [exact (Hname eq_refl) | exact Hdecodes]. }
  intros n Hn.
  induction Hn as [name args selectionSet decoded Hname Hdecoded Hsels IH
                  |selections Hsels IH
                  |name Hrank
                  |name selections Hname Hsels IH].
  - apply Flattens_selections. intros s Hin. apply Hchild; auto.
  - apply Flattens_selections. intros s Hin. apply Hchild; auto.
  - exists 1. intros fuel' obj Hle _. destruct fuel' as [|fuel']; [lia|].
    exists obj. reflexivity.
  - apply Flattens_selections. intros s Hin. apply Hchild; auto.
Qed.

(** The document [Fixture.namesInfo] is acyclic, with every fragment at rank 0. *)
Lemma namesInfo_Acyclic : Acyclic Fixture.namesInfo (fun _ => 0).
Proof.
  intros name definition. cbn [Fixture.namesInfo fragments hash_get].
  destruct (String.eqb "Name" name); [|discriminate].
  intros [= <-]. apply Normalizable_definition; [reflexivity|]. intros s [<-|[]].
  apply (Normalizable_field _ _ _ _ _ _ []); [reflexivity | reflexivity | intros s []].
Qed.

Lemma profileDirect_Normalizable :
  Normalizable Fixture.namesInfo (fun _ => 0) 1 Fixture.profileDirect.
Proof.
  apply (Normalizable_field _ _ _ _ _ _ [("first", Float "10")]);
    [reflexivity | reflexivity |].
  intros s [<-|[]].
  apply (Normalizable_field _ _ _ _ _ _ []); [reflexivity | reflexivity | intros s []].
Qed.

Lemma profileSpreading_Normalizable :
  Normalizable Fixture.namesInfo (fun _ => 0) 1
    (FieldNode "profile" None (Some [FragmentSpreadNode "Name"])).
Proof.
  apply (Normalizable_field _ _ _ _ _ _ []); [reflexivity | reflexivity |].
  intros s [<-|[]]. apply Normalizable_spread. intros definition _. lia.
Qed.

Lemma flattenAST_selections_only fuel info name args args' selectionSet obj :
  flattenAST fuel (Some (FieldNode name args selectionSet)) info obj
  = flattenAST fuel (Some (FieldNode name args' selectionSet)) info obj.
Proof. destruct fuel; reflexivity. Qed.

(** Two fields of one name that make up a selection set of an acyclic
    document: the one node that comes out. *)
Lemma flattenAST_two_occurrences_returns info rank bound ast name args1 set1 args2 set2 :
  Acyclic info rank ->
  Normalizable info rank bound (FieldNode name args1 set1) ->
  Normalizable info rank bound (FieldNode name None set2) ->
  getSelections ast = [FieldNode name args1 set1; FieldNode name args2 set2] ->
  exists fuel decoded children1 children2 merged,
    decodeArguments args1 = inr decoded
    /\ flattenAST fuel (Some (FieldNode name args1 set1)) info [] = Done children1
    /\ flattenAST fuel (Some (FieldNode name args2 set2)) info [] = Done children2
    /\ flattenAST (S fuel) ast info []
       = Done [(name, mkSelection (Some decoded) (Some merged))]
    /\ Merged children1 children2 merged.
Proof.
  intros Hacyclic Hfirst Hsecond Hselections.
  destruct (Normalizable_decodes _ _ _ _ Hfirst) as [decoded Hdecoded].
  destruct (flattenAST_returns info rank Hacyclic bound _ Hfirst) as [fuel1 Hflattens1].
  destruct (flattenAST_returns info rank Hacyclic bound _ Hsecond) as [fuel2 Hflattens2].
  destruct (Hflattens1 (Nat.max fuel1 fuel2) [] (Nat.le_max_l _ _) AllHaveChildren_nil)
    as [children1 Hrun1].
  destruct (Hflattens2 (Nat.max fuel1 fuel2) [] (Nat.le_max_r _ _) AllHaveChildren_nil)
    as [children2 Hrun2].
  rewrite (flattenAST_selections_only _ _ _ None args2) in Hrun2.
  destruct (flattenAST_two_occurrences _ _ _ _ _ _ _ _ _ _ _
              Hselections (Normalizable_own_name _ _ _ _ Hfirst eq_refl)
              Hdecoded Hrun1 Hrun2) as [merged [Hrun Hmerged]].
  exists (Nat.max fuel1 fuel2), decoded, children1, children2, merged. auto.
Qed.

(** ** The fields of a level *)

Lemma LevelFields_fields info selections fields :
  LevelFields info selections fields ->
  Forall (fun f => isFragment f = false) fields.
Proof.
  induction 1 as [|n selections fields Hfield _ IH
                  |n selections inlined fields _ _ IHinlined _ IH].
  - constructor.
  - now constructor.
  - apply Forall_app. now split.
Qed.

Lemma LevelFields_unique info selections fields :
  LevelFields info selections fields ->
  forall fields', LevelFields info selections fields' -> fields' = fields.
Proof.
  induction 1 as [|n selections fields Hfield _ IH
                  |n selections inlined fields Hfragment _ IHinlined _ IH];
    intros fields' Hfields'; inversion Hfields'; subst; try congruence.
  - f_equal. now apply IH.
  - f_equal; [now apply IHinlined | now apply IH].
Qed.

(** What [flattenAST] returns on a selection set, it returns on the fields of
    the level: a fragment adds no level, however deep it is nested. *)
Lemma reduce_flattenSelection_inlined info fuel :
  forall selections obj out,
    reduce (flattenSelection (flattenAST fuel) info) selections obj = Done out ->
    exists fields,
      LevelFields info selections fields
      /\ reduce (flattenSelection (flattenAST fuel) info) fields obj = Done out.
Proof.
  induction fuel as [fuel IHfuel] using lt_wf_ind.
  induction selections as [|n selections IH]; intros obj out Hrun.
  - exists []. split; [constructor | exact Hrun].
  - simpl in Hrun. apply Fueled_bind_Done in Hrun as [mid [Hstep Hrun]].
    destruct (IH _ _ Hrun) as (fields & Hfields & Hrest).
    destruct (isFragment n) eqn:Hfragment.
    + unfold flattenSelection in Hstep. rewrite Hfragment in Hstep.
      destruct fuel as [|fuel]; [discriminate|].
      change (reduce (flattenSelection (flattenAST fuel) info)
                (getSelections (getAST n info)) obj = Done mid) in Hstep.
      destruct (IHfuel fuel (Nat.lt_succ_diag_r fuel) _ _ _ Hstep)
        as (inlined & Hinlined & Hstep').
      exists (inlined ++ fields). split; [now constructor|].
      rewrite reduce_app, (reduce_more_fuel _ _ _ _ _ Hstep'). exact Hrest.
    + exists (n :: fields). split; [now constructor|].
      simpl. now rewrite Hstep.
Qed.

Lemma flattenAST_inlined fuel info ast obj out :
  flattenAST fuel ast info obj = Done out ->
  exists fuel' fields,
    fuel = S fuel'
    /\ LevelFields info (getSelections ast) fields
    /\ reduce (flattenSelection (flattenAST fuel') info) fields obj = Done out.
Proof.
  destruct fuel as [|fuel]; [discriminate|]. intros Hrun.
  destruct (reduce_flattenSelection_inlined info fuel _ _ _ Hrun) as (fields & Hfields & Hrun').
  now exists fuel, fields.
Qed.

Lemma hash_in_set {T} (h : Hash T) k k' v :
  hash_in k' (hash_set h k v) = String.eqb k' k || hash_in k' h.
Proof.
  unfold hash_in. destruct (String.eqb k' k) eqn:Heq.
  - apply String.eqb_eq in Heq. subst k'. now rewrite hash_get_set_eq.
  - apply String.eqb_neq in Heq. now rewrite hash_get_set_neq.
Qed.

Lemma hash_in_keys {T} (h : Hash T) k :
  hash_in k h = true <-> In k (hash_keys h).
Proof.
  pose proof (hash_get_None_keys h k) as Hnone. unfold hash_in.
  destruct (hash_get h k) as [v|].
  - split; [|reflexivity]. intros _.
    destruct (in_dec string_dec k (hash_keys h)) as [Hin|Hnotin]; [exact Hin|].
    apply Hnone in Hnotin. discriminate.
  - split; [discriminate|]. intros Hin. now apply Hnone in Hin.
Qed.

Lemma existsb_name_In k fields :
  existsb (String.eqb k) (map nodeName fields) = true
  <-> exists f, In f fields /\ nodeName f = k.
Proof.
  rewrite existsb_exists. split.
  - intros (name & Hin & Heq). apply String.eqb_eq in Heq. subst name.
    apply in_map_iff in Hin as (f & Hname & Hin). eauto.
  - intros (f & Hin & <-). exists (nodeName f).
    split; [now apply in_map | apply String.eqb_refl].
Qed.

(** The keys a level ends with: those it began with and the names of its
    fields. *)
Lemma reduce_fields_keys flatten info fields :
  Forall (fun f => isFragment f = false) fields ->
  forall obj out,
    reduce (flattenSelection flatten info) fields obj = Done out ->
    forall k, hash_in k out = hash_in k obj || existsb (String.eqb k) (map nodeName fields).
Proof.
  induction 1 as [|f fields Hfield _ IH]; intros obj out Hrun k; simpl in Hrun.
  - injection Hrun as <-. simpl. now rewrite orb_false_r.
  - apply Fueled_bind_Done in Hrun as [mid [Hstep Hrun]].
    rewrite (IH _ _ Hrun k). simpl.
    destruct (flattenSelection_field _ _ _ _ _ Hfield Hstep)
      as [(args & existingChildren & merged & Hget & _ & ->)
         |(decoded & nodeChildren & Hget & _ & _ & ->)];
      rewrite hash_in_set.
    + destruct (String.eqb k (nodeName f)) eqn:Heq; simpl.
      * apply String.eqb_eq in Heq. subst k. unfold hash_in. now rewrite Hget.
      * reflexivity.
    + now rewrite orb_assoc, (orb_comm (String.eqb _ _)).
Qed.

Lemma flattenAST_level_keys fuel info ast obj out :
  flattenAST fuel ast info obj = Done out ->
  exists fields,
    LevelFields info (getSelections ast) fields
    /\ forall k, hash_in k out
                 = hash_in k obj || existsb (String.eqb k) (map nodeName fields).
Proof.
  intros Hrun.
  destruct (flattenAST_inlined _ _ _ _ _ Hrun) as (fuel' & fields & _ & Hfields & Hrun').
  exists fields. split; [exact Hfields|].
  exact (reduce_fields_keys _ _ _ (LevelFields_fields _ _ _ Hfields) _ _ Hrun').
Qed.

(** The first field of a name creates the node, with its own arguments, and
    nothing after it touches them. *)
Lemma reduce_fields_first_arguments fuel info before f after obj out :
  Forall (fun f => isFragment f = false) (before ++ f :: after) ->
  reduce (flattenSelection (flattenAST fuel) info) (before ++ f :: after) obj = Done out ->
  hash_get obj (nodeName f) = None ->
  (forall g, In g before -> nodeName g <> nodeName f) ->
  exists decoded node,
    decodeArguments (nodeArguments f) = inr decoded
    /\ hash_get out (nodeName f) = Some node
    /\ arguments node = Some decoded.
Proof.
  intros Hfields Hrun Hobj Hbefore.
  apply Forall_app in Hfields as [Hfields Hafter].
  apply Forall_cons_iff in Hafter as [Hfield Hafter].
  rewrite reduce_app in Hrun.
  apply Fueled_bind_Done in Hrun as [mid [Hrun Hrest]]. simpl in Hrest.
  apply Fueled_bind_Done in Hrest as [mid' [Hstep Hrest]].
  assert (Hmid : hash_get mid (nodeName f) = None).
  { pose proof (reduce_fields_keys _ _ _ Hfields _ _ Hrun (nodeName f)) as Hkeys.
    unfold hash_in in Hkeys at 1 2. rewrite Hobj in Hkeys. simpl in Hkeys.
    destruct (existsb _ _) eqn:Hexists.
    - apply existsb_name_In in Hexists as (g & Hin & Hname).
      now apply Hbefore in Hin.
    - now destruct (hash_get mid (nodeName f)). }
  destruct (flattenSelection_field _ _ _ _ _ Hfield Hstep)
    as [(args & existingChildren & merged & Hget & _ & _)
       |(decoded & nodeChildren & _ & Hdecoded & _ & ->)]; [congruence|].
  destruct (flattenAST_keeps_arguments (S fuel) info (Some (InlineFragmentNode after))
              _ out (nodeName f) _ Hrest (hash_get_set_eq _ _ _))
    as (node & Hnode & Harguments).
  now exists decoded, node.
Qed.

Lemma flattenAST_first_arguments fuel info ast out before f after :
  flattenAST fuel ast info [] = Done out ->
  LevelFields info (getSelections ast) (before ++ f :: after) ->
  (forall g, In g before -> nodeName g <> nodeName f) ->
  exists decoded node,
    decodeArguments (nodeArguments f) = inr decoded
    /\ hash_get out (nodeName f) = Some node
    /\ arguments node = Some decoded.
Proof.
  intros Hrun Hlevel Hbefore.
  destruct (flattenAST_inlined _ _ _ _ _ Hrun) as (fuel' & fields & _ & Hfields & Hrun').
  rewrite (LevelFields_unique _ _ _ Hlevel _ Hfields) in Hrun'.
  apply (reduce_fields_first_arguments fuel' info before f after [] out);
    [exact (LevelFields_fields _ _ _ Hlevel) | exact Hrun' | reflexivity | exact Hbefore].
Qed.

(** The step on a field: the node of its name gets, for children, those it
    had and the fields at the level of the field's own selection set. *)
Lemma flattenSelection_children fuel info flattened f out :
  isFragment f = false ->
  flattenSelection (flattenAST fuel) info flattened f = Done out ->
  forall k c,
    ChildKey out k c
    <-> ChildKey flattened k c \/ ChildOfOccurrence info [f] k c.
Proof.
  intros Hfield Hstep.
  assert (Hshape : exists args (old new : Hash Selection) inner,
             out = hash_set flattened (nodeName f) (mkSelection args (Some new))
             /\ (forall c, ChildKey flattened (nodeName f) c <-> hash_in c old = true)
             /\ LevelFields info (getSelections (Some f)) inner
             /\ forall c, hash_in c new
                          = hash_in c old || existsb (String.eqb c) (map nodeName inner)).
  { destruct (flattenSelection_field _ _ _ _ _ Hfield Hstep)
      as [(args & existingChildren & merged & Hget & Hown & ->)
         |(decoded & nodeChildren & Hget & _ & Hown & ->)];
      destruct (flattenAST_level_keys _ _ _ _ _ Hown) as (inner & Hinner & Hkeys).
    - exists args, existingChildren, merged, inner. repeat split; try assumption.
      + intros (args' & children' & Hget' & Hin). congruence.
      + intros Hin. now exists args, existingChildren.
    - exists (Some decoded), [], nodeChildren, inner. repeat split; try assumption.
      + intros (args' & children' & Hget' & _). congruence.
      + discriminate. }
  destruct Hshape as (args & old & new & inner & -> & Hold & Hinner & Hnew).
  intros k c. destruct (String.eqb k (nodeName f)) eqn:Heq.
  - apply String.eqb_eq in Heq. subst k. split.
    + intros (args' & children' & Hget & Hin).
      rewrite hash_get_set_eq in Hget. injection Hget as <- <-.
      rewrite Hnew in Hin. apply orb_true_iff in Hin as [Hin|Hin].
      * left. now apply Hold.
      * right. apply existsb_name_In in Hin as (g & Hin & Hname).
        exists f, inner, g. repeat split; try assumption. now left.
    + intros Hchild. exists args, new. rewrite hash_get_set_eq. split; [reflexivity|].
      rewrite Hnew. apply orb_true_iff.
      destruct Hchild as [Hchild|(f' & inner' & g & [<-|[]] & _ & Hinner' & Hin & Hname)].
      * left. now apply Hold.
      * right. rewrite (LevelFields_unique _ _ _ Hinner _ Hinner') in Hin.
        apply existsb_name_In. eauto.
  - apply String.eqb_neq in Heq. unfold ChildKey.
    rewrite hash_get_set_neq by exact Heq. split; [now left|].
    intros [Hchild|(f' & inner' & g & [<-|[]] & Hname & _)]; [exact Hchild|].
    now symmetry in Hname.
Qed.

Lemma ChildOfOccurrence_cons info f fields k c :
  ChildOfOccurrence info (f :: fields) k c
  <-> ChildOfOccurrence info [f] k c \/ ChildOfOccurrence info fields k c.
Proof.
  split.
  - intros (f' & inner & g & [<-|Hin] & Hrest).
    + left. exists f, inner, g. split; [now left | exact Hrest].
    + right. now exists f', inner, g.
  - intros [(f' & inner & g & [<-|[]] & Hrest)|(f' & inner & g & Hin & Hrest)].
    + exists f, inner, g. split; [now left | exact Hrest].
    + exists f', inner, g. split; [now right | exact Hrest].
Qed.

Lemma reduce_fields_children fuel info fields :
  Forall (fun f => isFragment f = false) fields ->
  forall obj out,
    reduce (flattenSelection (flattenAST fuel) info) fields obj = Done out ->
    forall k c,
      ChildKey out k c <-> ChildKey obj k c \/ ChildOfOccurrence info fields k c.
Proof.
  induction 1 as [|f fields Hfield _ IH]; intros obj out Hrun k c; simpl in Hrun.
  - injection Hrun as <-. split; [now left|].
    intros [Hchild|(f & inner & g & [] & _)]. exact Hchild.
  - apply Fueled_bind_Done in Hrun as [mid [Hstep Hrun]].
    rewrite (IH _ _ Hrun k c), (flattenSelection_children _ _ _ _ _ Hfield Hstep k c),
      (ChildOfOccurrence_cons info f fields k c).
    tauto.
Qed.

(** The children of the node of a name: the fields at the level of the
    selection sets of all the fields of that name. *)
Lemma flattenAST_level_children fuel info ast out fields :
  flattenAST fuel ast info [] = Done out ->
  LevelFields info (getSelections ast) fields ->
  forall k node,
    hash_get out k = Some node ->
    exists args children,
      node = mkSelection args (Some children)
      /\ forall c, hash_in c children = true <-> ChildOfOccurrence info fields k c.
Proof.
  intros Hrun Hlevel k node Hget.
  destruct (flattenAST_inlined _ _ _ _ _ Hrun) as (fuel' & fields' & _ & Hlevel' & Hrun').
  rewrite (LevelFields_unique _ _ _ Hlevel _ Hlevel') in Hrun'.
  pose proof (LevelFields_fields _ _ _ Hlevel) as Hfields.
  pose proof (flattenAST_AllHaveChildren _ _ _ _ _ Hrun AllHaveChildren_nil k node Hget)
    as Hnode.
  destruct Hnode as [args children _]. exists args, children. split; [reflexivity|].
  intros c.
  pose proof (reduce_fields_children _ _ _ Hfields _ _ Hrun' k c) as Hunion.
  split.
  - intros Hin.
    destruct (proj1 Hunion) as [(args' & children' & Hget' & _)|Hchild];
      [now exists args, children | discriminate | exact Hchild].
  - intros Hchild.
    destruct (proj2 Hunion (or_intror Hchild)) as (args' & children' & Hget' & Hin).
    congruence.
Qed.

(** ** Duplicate selections *)

(** A field whose name is inherited from [Object.prototype] and is no key yet
    takes the merge branch, which throws. *)
Lemma flattenSelection_inherited_name flatten info flattened n out :
  isFragment n = false ->
  hash_get flattened (nodeName n) = None ->
  inherited (nodeName n) = true ->
  flattenSelection flatten info flattened n <> Done out.
Proof.
  intros Hfield Hget Hname Hstep.
  rewrite (flattenSelection_creates_own_name _ _ _ _ _ Hfield Hstep Hget) in Hname.
  discriminate.
Qed.

(** C9, at a field named [constructor]: the request
    [{ races { constructor { id } ...Team } }], with
    [fragment Team on Race { constructor { name } }], selects [constructor]
    once directly and once through a fragment.  [graphqlFields] throws a
    TypeError at the first occurrence, and returns no selection however many
    nested calls it is given: [flattened["constructor"]] is the function every
    object inherits, so the merge branch runs on a node that was never
    created.  The same request on a field named [profile] gives the one node
    with the children of both occurrences. *)
Theorem same_name_inherited_from_Object_prototype_throws :
  graphqlFields 4 Fixture.constructorInfo [] = Threw TypeError
  /\ (forall fuel selection,
         graphqlFields fuel Fixture.constructorInfo [] <> Done selection)
  /\ graphqlFields 4 Fixture.usersInfo []
     = Done (mkSelection None
               (Some [("profile",
                       mkSelection (Some [("first", Float "10")])
                         (Some [("id", Fixture.leaf); ("name", Fixture.leaf)]))])).
Proof.
  split; [vm_compute; reflexivity|]. split; [|vm_compute; reflexivity].
  intros fuel selection Hrun. unfold graphqlFields in Hrun.
  apply Fueled_bind_Done in Hrun as [children [Hrun _]].
  simpl in Hrun. apply Fueled_bind_Done in Hrun as [out [Hrun _]].
  destruct fuel as [|fuel]; [discriminate|].
  simpl in Hrun. apply Fueled_bind_Done in Hrun as [mid [Hstep _]].
  revert Hstep. now apply flattenSelection_inherited_name.
Qed.

(** C10: the step on a field whose name is already at the current level
    leaves the arguments of the existing node as they are and only replaces
    its children; this holds through any further [flattenAST].  So, when
    [flattenAST] returns, the node of a name has the decoded arguments of the
    first field of that name at the level, fragments inlined, whatever the
    fields of that name after it carry, and its children are those of all the
    fields of that name: the names found at the level of the selection set of
    any of them.  Two fields of one name (not one inherited from
    [Object.prototype]) that make up a selection set give one node, with the
    decoded arguments of the first and, for children, the union merge of the
    children of the two; in an acyclic document they do give it, as soon as
    the arguments of the first decode. *)
Theorem merged_node_keeps_first_arguments :
  (forall fuel info flattened n existing out,
      isFragment n = false ->
      hash_get flattened (nodeName n) = Some existing ->
      flattenSelection (flattenAST fuel) info flattened n = Done out ->
      exists merged,
        out = hash_set flattened (nodeName n)
                (mkSelection (arguments existing) (Some merged)))
  /\ (forall fuel info ast obj out k node,
         flattenAST fuel ast info obj = Done out ->
         hash_get obj k = Some node ->
         exists node', hash_get out k = Some node' /\ arguments node' = arguments node)
  /\ (forall fuel info ast out before f after,
         flattenAST fuel ast info [] = Done out ->
         LevelFields info (getSelections ast) (before ++ f :: after) ->
         (forall g, In g before -> nodeName g <> nodeName f) ->
         exists decoded children,
           decodeArguments (nodeArguments f) = inr decoded
           /\ hash_get out (nodeName f) = Some (mkSelection (Some decoded) (Some children))
           /\ forall c, hash_in c children = true
                        <-> ChildOfOccurrence info (before ++ f :: after) (nodeName f) c)
  /\ (forall fuel info ast name args1 set1 args2 set2 decoded children1 children2,
         getSelections ast = [FieldNode name args1 set1; FieldNode name args2 set2] ->
         inherited name = false ->
         decodeArguments args1 = inr decoded ->
         flattenAST fuel (Some (FieldNode name args1 set1)) info [] = Done children1 ->
         flattenAST fuel (Some (FieldNode name args2 set2)) info [] = Done children2 ->
         exists merged,
           flattenAST (S fuel) ast info []
           = Done [(name, mkSelection (Some decoded) (Some merged))]
           /\ Merged children1 children2 merged
           /\ (forall k, hash_in k merged = hash_in k children1 || hash_in k children2))
  /\ (forall info rank bound ast name args1 set1 args2 set2,
         Acyclic info rank ->
         Normalizable info rank bound (FieldNode name args1 set1) ->
         Normalizable info rank bound (FieldNode name None set2) ->
         getSelections ast = [FieldNode name args1 set1; FieldNode name args2 set2] ->
         exists fuel decoded children1 children2 merged,
           decodeArguments args1 = inr decoded
           /\ flattenAST fuel (Some (FieldNode name args1 set1)) info [] = Done children1
           /\ flattenAST fuel (Some (FieldNode name args2 set2)) info [] = Done children2
           /\ flattenAST (S fuel) ast info []
              = Done [(name, mkSelection (Some decoded) (Some merged))]
           /\ Merged children1 children2 merged).
Proof.
  split; [|split; [|split; [|split]]].
  - intros fuel info flattened n existing out Hfield Hget Hstep.
    destruct (flattenSelection_field _ _ _ _ _ Hfield Hstep)
      as [(args & existingChildren & merged & Hget' & _ & ->)
         |(decoded & nodeChildren & Hget' & _ & _ & ->)].
    + exists merged. rewrite Hget in Hget'. now injection Hget' as ->.
    + rewrite Hget in Hget'. discriminate.
  - intros fuel info ast obj out k node. apply flattenAST_keeps_arguments.
  - intros fuel info ast out before f after Hrun Hlevel Hbefore.
    destruct (flattenAST_first_arguments _ _ _ _ _ _ _ Hrun Hlevel Hbefore)
      as (decoded & node & Hdecoded & Hget & Harguments).
    destruct (flattenAST_level_children _ _ _ _ _ Hrun Hlevel _ _ Hget)
      as (args & children & -> & Hunion).
    simpl in Harguments. subst args. now exists decoded, children.
  - intros fuel info ast name args1 set1 args2 set2 decoded children1 children2
      Hselections Hname Hdecoded Hfirst Hsecond.
    destruct (flattenAST_two_occurrences _ _ _ _ _ _ _ _ _ _ _
                Hselections Hname Hdecoded Hfirst Hsecond) as [merged [Hrun Hmerged]].
    exists merged. split; [exact Hrun|]. split; [exact Hmerged|].
    intros k. now apply Merged_hash_in.
  - intros info rank bound ast name args1 set1 args2 set2.
    apply flattenAST_two_occurrences_returns.
Qed.

Lemma merged_node_keeps_first_arguments_witness :
  decodeArguments (nodeArguments Fixture.profileInFragment) = inl TypeError
  /\ (exists children,
         hash_get [("profile",
                    mkSelection (Some [("first", Float "10")])
                      (Some [("id", Fixture.leaf); ("name", Fixture.leaf)]))]
           "profile"
         = Some (mkSelection (Some [("first", Float "10")]) (Some children))
         /\ forall c,
              hash_in c children = true
              <-> ChildOfOccurrence Fixture.usersInfo
                    [Fixture.profileDirect; Fixture.profileInFragment] "profile" c)
  /\ (exists fuel merged,
         flattenAST (S fuel)
           (Some (InlineFragmentNode [Fixture.profileDirect; Fixture.profileSpreading]))
           Fixture.namesInfo []
         = Done [("profile", mkSelection (Some [("first", Float "10")]) (Some merged))]
         /\ Merged [("id", Fixture.leaf)] [("name", Fixture.leaf)] merged).
Proof.
  split; [reflexivity|]. split.
  - destruct (proj1 (proj2 (proj2 merged_node_keeps_first_arguments))
                4 Fixture.usersInfo
                (Some (FieldNode "users" None
                         (Some [Fixture.profileDirect; FragmentSpreadNode "ProfileName"])))
                [("profile",
                  mkSelection (Some [("first", Float "10")])
                    (Some [("id", Fixture.leaf); ("name", Fixture.leaf)]))]
                [] Fixture.profileDirect [Fixture.profileInFragment])
      as (decoded & children & Hdecoded & Hnode & Hunion).
    + vm_compute. reflexivity.
    + apply (LevelFields_field _ _ _ [Fixture.profileInFragment]); [reflexivity|].
      apply (LevelFields_fragment _ (FragmentSpreadNode "ProfileName") []
               [Fixture.profileInFragment] []); [reflexivity | | constructor].
      apply LevelFields_field; [reflexivity | constructor].
    + intros g [].
    + injection Hdecoded as <-. now exists children.
  - destruct (proj2 (proj2 (proj2 (proj2 merged_node_keeps_first_arguments)))
                Fixture.namesInfo (fun _ => 0) 1
                (Some (InlineFragmentNode [Fixture.profileDirect; Fixture.profileSpreading]))
                "profile" (Some [("first", IntValue "10")]) (Some [FieldNode "id" None None])
                (Some [("ids", ListValue [ListValue [IntValue "1"]])])
                (Some [FragmentSpreadNode "Name"])
                namesInfo_Acyclic profileDirect_Normalizable profileSpreading_Normalizable
                eq_refl)
      as (fuel & decoded & children1 & children2 & merged
          & Hdecoded & Hrun1 & Hrun2 & Hrun & Hmerged).
    injection Hdecoded as <-.
    exists fuel, merged. split; [exact Hrun|].
    destruct fuel as [|[|[|fuel]]]; try discriminate.
    assert (Hfirst : flattenAST (S (S (S fuel))) (Some Fixture.profileDirect)
                       Fixture.namesInfo [] = Done [("id", Fixture.leaf)]).
    { apply (flattenAST_fuel_le 2); [lia | reflexivity]. }
    assert (Hsecond : flattenAST (S (S (S fuel)))
                        (Some (FieldNode "profile"
                                 (Some [("ids", ListValue [ListValue [IntValue "1"]])])
                                 (Some [FragmentSpreadNode "Name"])))
                        Fixture.namesInfo [] = Done [("name", Fixture.leaf)]).
    { apply (flattenAST_fuel_le 3); [lia | reflexivity]. }
    change Fixture.profileDirect
      with (FieldNode "profile" (Some [("first", IntValue "10")])
              (Some [FieldNode "id" None None])) in Hfirst.
    rewrite Hfirst in Hrun1. rewrite Hsecond in Hrun2.
    injection Hrun1 as <-. injection Hrun2 as <-. exact Hmerged.
Defined.

(** * Further properties of the query resolver *)

Section ResolverBehaviour.

Variable config : ConfigureLoader.

(** X1: [createQuery] only appends to the query builder, when it returns and
    when it throws: the calls it received stay first, in their order, and the
    calls it adds do not depend on them. *)
Theorem createQuery_only_appends
    this model selection connection qb alias context depth :
  createQuery config this model selection connection qb alias context depth
  = (fst (createQuery config this model selection connection [] alias context depth),
     qb ++ snd (createQuery config this model selection connection [] alias context depth)).
Proof.
  apply (createQuery_app config this model selection connection alias context depth qb).
Qed.

Lemma forEach_relation_thrown (P : Error -> Prop) body relations :
  (forall relation qb e,
      In relation relations -> fst (body relation qb) = Thrown e -> P e) ->
  forall qb e, fst (forEach_relation body relations qb) = Thrown e -> P e.
Proof.
  induction relations as [|relation rest IH]; intros Hbody qb e; simpl;
    [discriminate|].
  destruct (body relation qb) as [[|e'] qb'] eqn:Hstep.
  - apply IH. intros r qb0 e0 Hr. apply Hbody. now right.
  - simpl. intros [= <-]. apply (Hbody relation qb); [now left | now rewrite Hstep].
Qed.

Lemma embeddedFieldsToSelect_TypeError requiredFields children embeddedFields e :
  embeddedFieldsToSelect requiredFields children embeddedFields = inl e -> e = TypeError.
Proof.
  induction embeddedFields as [|field rest IH]; simpl; [discriminate|].
  destruct (embeddedFieldToSelect requiredFields children field) as [e'|names] eqn:Hfield.
  - intros [= <-]. unfold embeddedFieldToSelect in Hfield.
    destruct (required_truthy _); [discriminate|].
    destruct (hash_get children (propertyName field)) as [[args [ch|]]|];
      try discriminate.
    destruct (map propertyName (emb_columns field)); [discriminate|].
    now injection Hfield as <-.
  - destruct (embeddedFieldsToSelect requiredFields children rest); [|discriminate].
    intros [= <-]. now apply IH.
Qed.

Lemma embeddedFieldsToSelect_thrown requiredFields children embeddedFields e :
  embeddedFieldsToSelect requiredFields children embeddedFields = inl e ->
  e = TypeError
  /\ exists embed embedArgs,
       In embed embeddedFields
       /\ required_truthy (hash_get requiredFields (propertyName embed)) = false
       /\ hash_get children (propertyName embed) = Some (mkSelection embedArgs None)
       /\ emb_columns embed <> [].
Proof.
  induction embeddedFields as [|field rest IH]; simpl; [discriminate|].
  destruct (embeddedFieldToSelect requiredFields children field) as [e'|names] eqn:Hfield.
  - intros [= <-]. unfold embeddedFieldToSelect in Hfield.
    destruct (required_truthy _) eqn:Hrequired; [discriminate|].
    destruct (hash_get children (propertyName field)) as [[args [ch|]]|] eqn:Hget;
      try discriminate.
    destruct (emb_columns field) as [|column columns] eqn:Hcolumns; [discriminate|].
    injection Hfield as <-. split; [reflexivity|].
    exists field, args. repeat split; try assumption; [now left|].
    rewrite Hcolumns. discriminate.
  - destruct (embeddedFieldsToSelect requiredFields children rest) as [e'|flat];
      [|discriminate].
    intros [= <-]. destruct (IH eq_refl) as (-> & embed & embedArgs & Hin & Hrest).
    split; [reflexivity|]. exists embed, embedArgs. split; [now right | exact Hrest].
Qed.

(** X2: the only exceptions that leave [createQuery] are MetadataNotFound, for
    an entity the connection does not know, and TypeError, and then the
    selection asks, of the entity or of one reached from it through the
    relations it names, for an embedded object that has a column and is
    neither ignored nor required, through a node without a children map. *)
Theorem createQuery_thrown_errors
    this model selection connection qb alias context depth e :
  fst (createQuery config this model selection connection qb alias context depth)
  = Thrown e ->
  match e with
  | TypeError =>
      exists node,
        selection = Some node
        /\ EmbeddedWithoutChildren config connection model node
  | MetadataNotFound unknown => getMetadata connection unknown = None
  end.
Proof.
  assert (Hnull : forall model qb e,
             fst (createQuery_null model connection qb) = Thrown e ->
             exists unknown,
               e = MetadataNotFound unknown /\ getMetadata connection unknown = None).
  { intros model0 qb0 e0. unfold createQuery_null.
    destruct (getMetadata connection model0) eqn:Hmeta; simpl; [discriminate|].
    intros [= <-]. eauto. }
  destruct selection as [selection|];
    [|intros Hthrown; now destruct (Hnull _ _ _ Hthrown) as (unknown & -> & Hunknown)].
  assert (Hnode : forall model qb alias context depth e,
             fst (createQuery config this model (Some selection) connection
                    qb alias context depth) = Thrown e ->
             match e with
             | TypeError => EmbeddedWithoutChildren config connection model selection
             | MetadataNotFound unknown => getMetadata connection unknown = None
             end);
    [|intros Hthrown; apply Hnode in Hthrown; destruct e; eauto].
  clear model qb alias context depth e.
  induction selection as [args|args children IH] using Selection_tree_ind;
    intros model qb alias context depth e.
  - rewrite createQuery_no_children_map. intros Hthrown.
    now destruct (Hnull _ _ _ Hthrown) as (unknown & -> & Hunknown).
  - rewrite createQuery_children.
    destruct (getMetadata connection model) as [meta|] eqn:Hmeta;
      [|simpl; intros [= <-]; exact Hmeta].
    cbv zeta. unfold _selectEmbeddedFields at 1.
    destruct (embeddedFieldsToSelect _ _ _) as [e'|flat] eqn:Hembedded.
    + simpl. intros [= <-].
      destruct (embeddedFieldsToSelect_thrown _ _ _ _ Hembedded)
        as (-> & embed & embedArgs & Hin & Hrequired & Hget & Hcolumns).
      unfold selectedEmbeddedFields in Hin. apply filter_In in Hin as [Hin Hkept].
      apply andb_true_iff in Hkept as [Hkept _]. apply negb_true_iff in Hkept.
      exact (EmbeddedWithoutChildren_here config connection model meta args children
               embed embedArgs Hmeta Hin Hkept Hrequired Hget Hcolumns).
    + destruct (number_lt depth (_maxDepth this)); [|discriminate].
      unfold _selectRelations.
      apply (forEach_relation_thrown
               (fun e => match e with
                         | TypeError =>
                             EmbeddedWithoutChildren config connection model
                               (mkSelection args (Some children))
                         | MetadataNotFound unknown =>
                             getMetadata connection unknown = None
                         end)).
      intros relation qb0 e0 Hin. apply filter_In in Hin as [Hin _].
      destruct (_ || _); [|discriminate].
      unfold createQueryChild.
      destruct (hash_get children (propertyName relation)) as [child|] eqn:Hget;
        intros Hthrown.
      * pose proof (hash_get_Forall
                      (fun child => forall model qb alias context depth e,
                           fst (createQuery config this model (Some child) connection
                                  qb alias context depth) = Thrown e ->
                           match e with
                           | TypeError =>
                               EmbeddedWithoutChildren config connection model child
                           | MetadataNotFound unknown =>
                               getMetadata connection unknown = None
                           end)
                      _ _ _ IH Hget _ _ _ _ _ e0 Hthrown) as Hchild.
        destruct e0; [exact Hchild|].
        exact (EmbeddedWithoutChildren_below config connection model meta args children
                 relation child Hmeta Hin Hget Hchild).
      * now destruct (Hnull _ _ _ Hthrown) as (unknown & -> & Hunknown).
Qed.

Lemma forEach_relation_returned body relations :
  (forall relation qb, In relation relations -> fst (body relation qb) = Returned) ->
  forall qb, fst (forEach_relation body relations qb) = Returned.
Proof.
  induction relations as [|relation rest IH]; intros Hbody qb; simpl; [reflexivity|].
  pose proof (Hbody relation qb (or_introl eq_refl)) as Hstep.
  destruct (body relation qb) as [[|e] qb']; [|discriminate].
  apply IH. intros r qb0 Hr. apply Hbody. now right.
Qed.

Lemma embeddedFieldsToSelect_returns requiredFields children embeddedFields :
  AllHaveChildren children ->
  exists flat, embeddedFieldsToSelect requiredFields children embeddedFields = inr flat.
Proof.
  intros Hall. induction embeddedFields as [|field rest [flat IH]]; simpl; [eauto|].
  rewrite IH.
  assert (Hfield : exists names,
             embeddedFieldToSelect requiredFields children field = inr names).
  { unfold embeddedFieldToSelect.
    destruct (required_truthy _); [eauto|].
    destruct (hash_get children (propertyName field)) as [node|] eqn:Hget; [|eauto].
    pose proof (Hall _ _ Hget) as Hnode. destruct Hnode as [args ch _].
    eauto. }
  destruct Hfield as [names ->]. eauto.
Qed.

Lemma createQuery_node_returns this connection selection :
  Closed connection ->
  HasChildren selection ->
  forall model meta qb alias context depth,
    getMetadata connection model = Some meta ->
    fst (createQuery config this model (Some selection) connection qb alias context depth)
    = Returned.
Proof.
  intros Hclosed.
  induction selection as [args|args children IH] using Selection_tree_ind;
    intros Hnode model meta qb alias context depth Hmeta; [inversion Hnode|].
  assert (Hall : AllHaveChildren children) by now inversion Hnode.
  rewrite createQuery_children, Hmeta. cbv zeta.
  unfold _selectEmbeddedFields at 1.
  destruct (embeddedFieldsToSelect_returns
              (getLoaderRequiredFields config (target meta)) children
              (selectedEmbeddedFields config meta children) Hall) as [flat ->].
  destruct (number_lt depth (_maxDepth this)); [|reflexivity].
  unfold _selectRelations. apply forEach_relation_returned.
  intros relation qb0 Hin. apply filter_In in Hin as [Hin _].
  destruct (_ || _); [|reflexivity].
  destruct (Hclosed _ _ _ Hmeta Hin) as [meta' Hmeta'].
  unfold createQueryChild.
  destruct (hash_get children (propertyName relation)) as [child|] eqn:Hget.
  - exact (hash_get_Forall
             (fun child => HasChildren child ->
                           forall model meta qb alias context depth,
                             getMetadata connection model = Some meta ->
                             fst (createQuery config this model (Some child) connection
                                    qb alias context depth) = Returned)
             _ _ _ IH Hget (Hall _ _ Hget) _ meta' _ _ _ _ Hmeta').
  - simpl. unfold createQuery_null. now rewrite Hmeta'.
Qed.

(** X3: on a connection that knows the target of every relation, for a known
    entity and a selection that is null or whose nodes all have children maps,
    [createQuery] returns: it throws nothing. *)
Theorem createQuery_returns
    this model meta selection connection qb alias context depth :
  Closed connection ->
  getMetadata connection model = Some meta ->
  (selection = None \/ exists node, selection = Some node /\ HasChildren node) ->
  fst (createQuery config this model selection connection qb alias context depth)
  = Returned.
Proof.
  intros Hclosed Hmeta [->|[node [-> Hnode]]].
  - simpl. unfold createQuery_null. now rewrite Hmeta.
  - now apply (createQuery_node_returns this connection node Hclosed Hnode model meta).
Qed.

Lemma embeddedFieldsToSelect_ext requiredFields children children' embeddedFields :
  (forall embed, In embed embeddedFields ->
                 hash_get children' (propertyName embed)
                 = hash_get children (propertyName embed)) ->
  embeddedFieldsToSelect requiredFields children' embeddedFields
  = embeddedFieldsToSelect requiredFields children embeddedFields.
Proof.
  induction embeddedFields as [|field rest IH]; intros Hagree; simpl; [reflexivity|].
  rewrite IH by (intros embed Hin; apply Hagree; now right).
  unfold embeddedFieldToSelect.
  now rewrite (Hagree field (or_introl eq_refl)).
Qed.

(** X4: [createQuery] reads the children map of the selection only at the
    property names of the entity: two children maps that agree on the names of
    its columns, embedded objects and relations give the same query builder.
    Keys that name no property of the entity are skipped without an error. *)
Theorem createQuery_reads_property_names_only
    this model meta args args' children children' connection qb alias context depth :
  getMetadata connection model = Some meta ->
  (forall name,
      In name (map propertyName (columns meta)
               ++ map propertyName (embeddeds meta)
               ++ map propertyName (relations meta)) ->
      hash_get children' name = hash_get children name) ->
  createQuery config this model (Some (mkSelection args' (Some children')))
    connection qb alias context depth
  = createQuery config this model (Some (mkSelection args (Some children)))
      connection qb alias context depth.
Proof.
  intros Hmeta Hagree.
  assert (Hcolumn : forall field, In field (columns meta) ->
                      hash_get children' (propertyName field)
                      = hash_get children (propertyName field)).
  { intros field Hin. apply Hagree. apply in_or_app. left. now apply in_map. }
  assert (Hembed : forall embed, In embed (embeddeds meta) ->
                     hash_get children' (propertyName embed)
                     = hash_get children (propertyName embed)).
  { intros embed Hin. apply Hagree. apply in_or_app. right.
    apply in_or_app. left. now apply in_map. }
  assert (Hrelation : forall relation, In relation (relations meta) ->
                        hash_get children' (propertyName relation)
                        = hash_get children (propertyName relation)).
  { intros relation Hin. apply Hagree. apply in_or_app. right.
    apply in_or_app. right. now apply in_map. }
  rewrite !createQuery_children, Hmeta. cbv zeta.
  assert (Hfields : selectedFields config meta children'
                    = selectedFields config meta children).
  { unfold selectedFields. apply filter_ext_in. intros field Hin.
    unfold key_in, hash_in. now rewrite (Hcolumn field Hin). }
  assert (Hembeddeds : selectedEmbeddedFields config meta children'
                       = selectedEmbeddedFields config meta children).
  { unfold selectedEmbeddedFields. apply filter_ext_in. intros embed Hin.
    unfold key_in, hash_in. now rewrite (Hembed embed Hin). }
  rewrite Hfields, Hembeddeds.
  unfold _selectEmbeddedFields.
  rewrite (embeddedFieldsToSelect_ext _ children children').
  2:{ intros embed Hin. apply Hembed. unfold selectedEmbeddedFields in Hin.
      now apply filter_In in Hin as [Hin _]. }
  destruct (embeddedFieldsToSelect _ _ _) as [e|flat]; [reflexivity|].
  destruct (number_lt depth (_maxDepth this)); [|reflexivity].
  unfold _selectRelations. apply forEach_relation_ext.
  intros relation qb0 Hin. apply filter_In in Hin as [Hin _].
  unfold key_in, hash_in, createQueryChild. now rewrite (Hrelation relation Hin).
Qed.

Lemma forEach_relation_skips body relations qb :
  (forall relation qb, In relation relations -> body relation qb = (Returned, qb)) ->
  forEach_relation body relations qb = (Returned, qb).
Proof.
  induction relations as [|relation rest IH]; intros Hbody; simpl; [reflexivity|].
  rewrite (Hbody relation qb (or_introl eq_refl)).
  apply IH. intros r qb0 Hr. apply Hbody. now right.
Qed.

(** X5: when the children map of the selection has no relation of the entity
    (none is an own key, none has the name of a member of [Object.prototype])
    and the policy has no truthy required entry for one, [createQuery] adds no
    join: a selection of scalar fields only projects. *)
Theorem createQuery_scalars_add_no_join
    this model meta args children connection qb alias context depth :
  getMetadata connection model = Some meta ->
  (forall relation,
      In relation (relations meta) ->
      key_in (propertyName relation) children = false
      /\ required_truthy
           (hash_get (getLoaderRequiredFields config (target meta))
              (propertyName relation)) = false) ->
  joins (snd (createQuery config this model (Some (mkSelection args (Some children)))
                connection qb alias context depth))
  = joins qb.
Proof.
  intros Hmeta Hnone.
  rewrite createQuery_children, Hmeta. cbv zeta.
  rewrite <- (joins__selectFields this qb (selectedFields config meta children) alias).
  rewrite <- (joins__selectEmbeddedFields config this (_selectFields this qb _ alias)
                (selectedEmbeddedFields config meta children) children meta alias).
  destruct (_selectEmbeddedFields _ _ _ _ _ _ _) as [[|e] qb']; [|reflexivity].
  destruct (number_lt depth (_maxDepth this)); [|reflexivity].
  unfold _selectRelations. rewrite forEach_relation_skips; [reflexivity|].
  intros relation qb0 Hin. apply filter_In in Hin as [Hin _].
  destruct (Hnone relation Hin) as [-> ->]. reflexivity.
Qed.

Lemma embeddedFieldsToSelect_throws requiredFields children embeddedFields embed args :
  In embed embeddedFields ->
  required_truthy (hash_get requiredFields (propertyName embed)) = false ->
  hash_get children (propertyName embed) = Some (mkSelection args None) ->
  emb_columns embed <> [] ->
  embeddedFieldsToSelect requiredFields children embeddedFields = inl TypeError.
Proof.
  intros Hin Hrequired Hget Hcolumns.
  induction embeddedFields as [|field rest IH]; [destruct Hin|]. simpl.
  destruct Hin as [->|Hin].
  - unfold embeddedFieldToSelect. rewrite Hrequired, Hget.
    destruct (emb_columns embed); [contradiction | reflexivity].
  - destruct (embeddedFieldToSelect requiredFields children field) as [e|names] eqn:Hfield.
    + f_equal.
      apply (embeddedFieldsToSelect_TypeError requiredFields children [field]).
      simpl. now rewrite Hfield.
    + now rewrite (IH Hin).
Qed.

(** X6: when the selection names an embedded object of the entity that is
    neither ignored nor required and has a column, and the node selected for
    it has no children map, [createQuery] throws a TypeError; the query builder
    then holds the column projections and nothing of the embedded objects or
    of the relations. *)
Theorem createQuery_embedded_without_children_throws
    this model meta args children embed embedArgs connection qb alias context depth :
  getMetadata connection model = Some meta ->
  In embed (embeddeds meta) ->
  ignored_truthy
    (hash_get (getLoaderIgnoredFields config (target meta)) (propertyName embed)) = false ->
  required_truthy
    (hash_get (getLoaderRequiredFields config (target meta)) (propertyName embed)) = false ->
  hash_get children (propertyName embed) = Some (mkSelection embedArgs None) ->
  emb_columns embed <> [] ->
  createQuery config this model (Some (mkSelection args (Some children)))
    connection qb alias context depth
  = (Thrown TypeError,
     _selectFields this qb (selectedFields config meta children) alias).
Proof.
  intros Hmeta Hin Hignored Hrequired Hget Hcolumns.
  rewrite createQuery_children, Hmeta. cbv zeta.
  unfold _selectEmbeddedFields.
  rewrite (embeddedFieldsToSelect_throws _ children _ embed embedArgs);
    try assumption; [reflexivity|].
  unfold selectedEmbeddedFields. apply filter_In. split; [exact Hin|].
  unfold key_in, hash_in. now rewrite Hignored, Hget.
Qed.

Lemma forEach_relation_appends body relations (calls : RelationMetadata -> list QBCall) :
  (forall relation qb, In relation relations ->
                       body relation qb = (Returned, qb ++ calls relation)) ->
  forall qb,
    forEach_relation body relations qb = (Returned, qb ++ flat_map calls relations).
Proof.
  induction relations as [|relation rest IH]; intros Hbody qb; simpl.
  - now rewrite app_nil_r.
  - rewrite (Hbody relation qb (or_introl eq_refl)).
    rewrite IH by (intros r qb0 Hr; apply Hbody; now right).
    now rewrite app_assoc.
Qed.

(** X7: when the children map of the selection has no relation of the entity
    (none is an own key, none has the name of a member of [Object.prototype])
    and no required entry of a relation is a predicate, on a connection that
    knows the target of every relation, [_selectRelations] returns and adds
    one eager join for each relation that is marked required and not ignored,
    in the order of the metadata, and nothing below these joins. *)
Theorem _selectRelations_required_only
    this model meta children connection qb alias depth :
  Closed connection ->
  getMetadata connection model = Some meta ->
  (forall relation, In relation (relations meta) ->
                    key_in (propertyName relation) children = false) ->
  (forall relation, In relation (relations meta) ->
                    is_predicate
                      (hash_get (getLoaderRequiredFields config (target meta))
                         (propertyName relation)) = false) ->
  _selectRelations config this (createQueryChild config this connection children)
    qb children (relations meta) alias meta depth
  = (Returned,
     qb ++ map (fun relation =>
                  LeftJoinAndSelect
                    (columnSelection (_formatter this) alias (propertyName relation))
                    (_generateChildHash alias (propertyName relation) 10))
             (filter
                (fun relation =>
                   negb (ignored_truthy
                           (hash_get (getLoaderIgnoredFields config (target meta))
                              (propertyName relation)))
                   && marked_required
                        (hash_get (getLoaderRequiredFields config (target meta))
                           (propertyName relation)))
                (relations meta))).
Proof.
  intros Hclosed Hmeta Hunselected Hconstant.
  unfold _selectRelations.
  rewrite (forEach_relation_appends _ _
             (fun relation =>
                if marked_required
                     (hash_get (getLoaderRequiredFields config (target meta))
                        (propertyName relation))
                then [LeftJoinAndSelect
                        (columnSelection (_formatter this) alias (propertyName relation))
                        (_generateChildHash alias (propertyName relation) 10)]
                else [])).
  - f_equal. f_equal.
    assert (Hsub : forall relation, In relation (relations meta) ->
                                    In relation (relations meta)) by auto.
    revert Hsub. generalize (relations meta) at 1 3 4.
    intros l _. induction l as [|relation l IH]; simpl; [reflexivity|].
    destruct (ignored_truthy _); simpl; [exact IH|].
    destruct (marked_required _); simpl; now rewrite IH.
  - intros relation qb0 Hin. apply filter_In in Hin as [Hin _].
    rewrite (Hunselected relation Hin). simpl.
    assert (Hrequired : required_truthy
                          (hash_get (getLoaderRequiredFields config (target meta))
                             (propertyName relation))
                        = marked_required
                            (hash_get (getLoaderRequiredFields config (target meta))
                               (propertyName relation))).
    { pose proof (Hconstant relation Hin) as Hentry.
      now destruct (hash_get _ _) as [[b|predicate]|]. }
    rewrite Hrequired.
    destruct (marked_required _); [|now rewrite app_nil_r].
    destruct (Hclosed _ _ _ Hmeta Hin) as [meta' Hmeta'].
    unfold createQueryChild.
    assert (Hget : hash_get children (propertyName relation) = None).
    { pose proof (Hunselected relation Hin) as Hnot.
      apply orb_false_iff in Hnot as [Hnot _]. unfold hash_in in Hnot.
      now destruct (hash_get children (propertyName relation)). }
    rewrite Hget. simpl. unfold createQuery_null. now rewrite Hmeta'.
Qed.

(** X8: every nested call of [createQuery] runs at depth 0, so with a ceiling
    above 0 a resolution from depth 0 gives the query builder it gives without
    ceiling: the ceiling cuts nothing. *)
Theorem createQuery_ceiling_above_0_cuts_nothing
    this model selection connection qb alias context :
  number_lt 0 (_maxDepth this) = true ->
  createQuery config this model selection connection qb alias context 0
  = createQuery config (unbounded this) model selection connection qb alias context 0.
Proof.
  intros Hzero.
  now apply (createQuery_depth_not_threaded config this connection selection Hzero).
Qed.

End ResolverBehaviour.

Lemma createQuery_thrown_errors_witness :
  exists node,
    Some (Fixture.node [("address", mkSelection None None)]) = Some node
    /\ EmbeddedWithoutChildren Fixture.noPolicy Fixture.connection "Publisher" node.
Proof.
  apply (createQuery_thrown_errors Fixture.noPolicy (Fixture.loader Infinity) "Publisher"
           (Some (Fixture.node [("address", mkSelection None None)]))
           Fixture.connection [] "p" Null 0 TypeError).
  reflexivity.
Defined.

Lemma createQuery_reads_property_names_only_witness :
  createQuery Fixture.noPolicy (Fixture.loader Infinity) "Author"
    (Some (mkSelection None
             (Some [("fullName", Fixture.leaf); ("firstName", Fixture.leaf)])))
    Fixture.connection [] "a" Null 0
  = createQuery Fixture.noPolicy (Fixture.loader Infinity) "Author"
      (Some (mkSelection (Some []) (Some [("firstName", Fixture.leaf)])))
      Fixture.connection [] "a" Null 0.
Proof.
  apply (createQuery_reads_property_names_only Fixture.noPolicy (Fixture.loader Infinity)
           "Author" Fixture.Author (Some []) None
           [("firstName", Fixture.leaf)]
           [("fullName", Fixture.leaf); ("firstName", Fixture.leaf)]
           Fixture.connection [] "a" Null 0).
  - reflexivity.
  - simpl. intros name [<-|[<-|[<-|[<-|[]]]]]; reflexivity.
Defined.

Lemma createQuery_scalars_add_no_join_witness :
  joins (snd (createQuery Fixture.noPolicy (Fixture.loader Infinity) "Book"
                (Some (mkSelection None (Some [("title", Fixture.leaf)])))
                Fixture.connection [LeftJoin "a.books" "b"] "b" Null 0))
  = joins [LeftJoin "a.books" "b"].
Proof.
  apply (createQuery_scalars_add_no_join Fixture.noPolicy (Fixture.loader Infinity)
           "Book" Fixture.Book None [("title", Fixture.leaf)]
           Fixture.connection [LeftJoin "a.books" "b"] "b" Null 0).
  - reflexivity.
  - simpl. intros relation [<-|[<-|[<-|[]]]]; split; reflexivity.
Defined.

Lemma Fixture_connection_Closed : Closed Fixture.connection.
Proof.
  intros model meta relation Hmeta Hin. simpl in Hmeta.
  destruct (String.eqb model "Author");
    [|destruct (String.eqb model "Book");
      [|destruct (String.eqb model "Publisher");
        [|destruct (String.eqb model "Review"); [|discriminate]]]];
    injection Hmeta as <-; simpl in Hin;
    repeat (destruct Hin as [<-|Hin]; [eexists; reflexivity|]);
    destruct Hin.
Qed.

Lemma createQuery_returns_witness :
  fst (createQuery Fixture.publisherRequired (Fixture.loader Infinity) "Book"
         (Some (Fixture.node [("author", Fixture.leaf)]))
         Fixture.connection [] "b" Null 0)
  = Returned.
Proof.
  apply (createQuery_returns Fixture.publisherRequired (Fixture.loader Infinity)
           "Book" Fixture.Book (Some (Fixture.node [("author", Fixture.leaf)]))
           Fixture.connection [] "b" Null 0).
  - exact Fixture_connection_Closed.
  - reflexivity.
  - right. exists (Fixture.node [("author", Fixture.leaf)]). split; [reflexivity|].
    constructor. intros k child. cbn [hash_get].
    destruct (String.eqb "author" k); [|discriminate].
    intros [= <-]. constructor. intros k' child'. discriminate.
Defined.

Lemma createQuery_embedded_without_children_throws_witness :
  createQuery Fixture.noPolicy (Fixture.loader Infinity) "Publisher"
    (Some (mkSelection None
             (Some [("name", Fixture.leaf); ("address", mkSelection None None)])))
    Fixture.connection [] "p" Null 0
  = (Thrown TypeError,
     [AddSelect "p.id" (Some "p_id"); AddSelect "p.name" (Some "p_name")]).
Proof.
  apply (createQuery_embedded_without_children_throws Fixture.noPolicy
           (Fixture.loader Infinity) "Publisher" Fixture.Publisher None
           [("name", Fixture.leaf); ("address", mkSelection None None)]
           {| emb_propertyName := "address";
              emb_columns := [Fixture.column "street" false; Fixture.column "city" false] |}
           None Fixture.connection [] "p" Null 0).
  - reflexivity.
  - left. reflexivity.
  - reflexivity.
  - reflexivity.
  - reflexivity.
  - discriminate.
Defined.

Lemma _selectRelations_required_only_witness :
  _selectRelations Fixture.publisherRequired (Fixture.loader Infinity)
    (createQueryChild Fixture.publisherRequired (Fixture.loader Infinity)
       Fixture.connection [("title", Fixture.leaf)])
    [] [("title", Fixture.leaf)] (relations Fixture.Book) "b" Fixture.Book 0
  = (Returned, [LeftJoinAndSelect "b.publisher" "99ac44b2e6"]).
Proof.
  apply (_selectRelations_required_only Fixture.publisherRequired
           (Fixture.loader Infinity) "Book" Fixture.Book [("title", Fixture.leaf)]
           Fixture.connection [] "b" 0).
  - exact Fixture_connection_Closed.
  - reflexivity.
  - simpl. intros relation [<-|[<-|[<-|[]]]]; reflexivity.
  - simpl. intros relation [<-|[<-|[<-|[]]]]; reflexivity.
Defined.

Lemma createQuery_ceiling_above_0_cuts_nothing_witness :
  createQuery Fixture.noPolicy (Fixture.loader (Finite 1)) "Author"
    (Some (Fixture.node [("books", Fixture.node [("publisher", Fixture.leaf)])]))
    Fixture.connection [] "a" Null 0
  = createQuery Fixture.noPolicy (unbounded (Fixture.loader (Finite 1))) "Author"
      (Some (Fixture.node [("books", Fixture.node [("publisher", Fixture.leaf)])]))
      Fixture.connection [] "a" Null 0.
Proof.
  apply (createQuery_ceiling_above_0_cuts_nothing Fixture.noPolicy
           (Fixture.loader (Finite 1)) "Author"
           (Some (Fixture.node [("books", Fixture.node [("publisher", Fixture.leaf)])]))
           Fixture.connection [] "a" Null).
  reflexivity.
Defined.

(** ** The child hash at other lengths *)

Lemma substring_0_prefix n s :
  exists rest, s = (substring 0 n s ++ rest)%string
               /\ String.length (substring 0 n s) = Nat.min n (String.length s).
Proof.
  revert s. induction n as [|n IH]; intros s.
  - exists s. now destruct s.
  - destruct s as [|c s]; simpl; [exists EmptyString; auto|].
    destruct (IH s) as [rest [Hs Hlen]].
    exists rest. split; [now rewrite <- Hs | now rewrite Hlen].
Qed.

(** X9: for every length from 0 on, the child hash is a prefix of the
    hexadecimal digest of [alias ++ "__" ++ propertyName]: the whole digest, 32
    characters, at length 0 (the default), and its first [length] characters,
    at most 32, otherwise.  A shorter child hash is thus a prefix of a longer
    one of the same pair. *)
Theorem _generateChildHash_is_digest_prefix alias propertyName (n : nat) :
  exists rest,
    MD5.digest_hex (alias ++ "__" ++ propertyName)%string
    = (_generateChildHash alias propertyName (Z.of_nat n) ++ rest)%string
    /\ String.length (_generateChildHash alias propertyName (Z.of_nat n))
       = (if Nat.eqb n 0 then 32 else Nat.min n 32).
Proof.
  unfold _generateChildHash. cbv zeta.
  set (output := MD5.digest_hex (alias ++ "__" ++ propertyName)%string).
  assert (Hlength : String.length output = 32) by apply digest_hex_length.
  clearbody output.
  destruct n as [|n].
  - exists EmptyString. change (Z.of_nat 0) with 0%Z. cbn [Z.eqb negb Nat.eqb].
    split; [|exact Hlength].
    clear. induction output as [|c s IH]; simpl; [reflexivity | now rewrite <- IH].
  - replace (Z.eqb (Z.of_nat (S n)) 0) with false by (symmetry; apply Z.eqb_neq; lia).
    cbn [negb Nat.eqb]. unfold slice0.
    replace (Z.ltb (Z.of_nat (S n)) 0) with false by (symmetry; apply Z.ltb_ge; lia).
    rewrite Nat2Z.id.
    destruct (substring_0_prefix (S n) output) as [rest [Hs Hlen]].
    exists rest. split; [exact Hs|].
    now rewrite Hlen, Hlength.
Qed.

(** * Further properties of the selection parser *)

(** ** Literals and arguments *)

Lemma parseLiteral_flat ast :
  flatLiteral ast = true ->
  exists v, parseLiteral false ast = inr v /\ parseLiteral true ast = inr v.
Proof.
  destruct ast as [value|value|value|value|[|field fields]|values| |value|name];
    simpl; try discriminate; eauto.
Qed.

Lemma parseLiteral_not_flat ast :
  flatLiteral ast = false -> parseLiteral false ast = inl TypeError.
Proof.
  destruct ast as [value|value|value|value|[|[name field] fields]|values| |value|name];
    simpl; try discriminate; reflexivity.
Qed.

(** X10: a list literal decodes when each of its elements is a scalar, a null,
    an enum, a variable or an object without fields, and then to the list of
    the decoded elements; as soon as one element is a list or an object with
    a field, decoding the list throws a TypeError: the elements are decoded
    by [parseLiteral] handed to [map] without its receiver. *)
Theorem parseLiteral_list values :
  (forallb flatLiteral values = true ->
   exists items,
     parseLiteral true (ListValue values) = inr (Arr items)
     /\ Forall2 (fun value item => parseLiteral true value = inr item) values items)
  /\ (forallb flatLiteral values = false ->
      parseLiteral true (ListValue values) = inl TypeError).
Proof.
  cbn [parseLiteral].
  induction values as [|value values [IHflat IHnot]]; split; simpl.
  - intros _. exists []. split; [reflexivity | constructor].
  - discriminate.
  - intros Hflat. apply andb_true_iff in Hflat as [Hvalue Hvalues].
    destruct (parseLiteral_flat value Hvalue) as [v [Hunbound Hbound]].
    destruct (IHflat Hvalues) as [items [Hrun Hitems]].
    rewrite Hunbound.
    destruct ((fix map_values (values0 : list ValueNode) : Error + list any :=
                 match values0 with
                 | [] => inr []
                 | v0 :: rest =>
                     match parseLiteral false v0 with
                     | inl e => inl e
                     | inr x =>
                         match map_values rest with
                         | inl e => inl e
                         | inr xs => inr (x :: xs)
                         end
                     end
                 end) values) as [e|items']; [discriminate|].
    injection Hrun as <-.
    exists (v :: items'). split; [reflexivity | now constructor].
  - intros Hflat. apply andb_false_iff in Hflat as [Hvalue|Hvalues].
    + now rewrite (parseLiteral_not_flat value Hvalue).
    + specialize (IHnot Hvalues).
      destruct (parseLiteral false value) as [e|x] eqn:Hvalue.
      * destruct (flatLiteral value) eqn:Hflat.
        -- destruct (parseLiteral_flat value Hflat) as [v [Hunbound _]]. congruence.
        -- rewrite (parseLiteral_not_flat value Hflat) in Hvalue. congruence.
      * destruct ((fix map_values (values0 : list ValueNode) : Error + list any :=
                     match values0 with
                     | [] => inr []
                     | v0 :: rest =>
                         match parseLiteral false v0 with
                         | inl e => inl e
                         | inr x =>
                             match map_values rest with
                             | inl e => inl e
                             | inr xs => inr (x :: xs)
                             end
                         end
                     end) values) as [e|items']; [exact IHnot | discriminate].
Qed.

Lemma parseLiteral_list_witness :
  parseLiteral true (ListValue [IntValue "1"; ListValue []]) = inl TypeError.
Proof.
  apply (proj2 (parseLiteral_list [IntValue "1"; ListValue []])).
  reflexivity.
Defined.

Lemma hash_get_fold_set {T} (singles : list (string * T)) (acc : Hash T) name :
  ~ In name (map fst singles) ->
  hash_get (fold_left (fun p n => hash_set p (fst n) (snd n)) singles acc) name
  = hash_get acc name.
Proof.
  revert acc. induction singles as [|[k v] singles IH]; intros acc Hnot; simpl;
    [reflexivity|].
  rewrite IH by (intros Hin; apply Hnot; now right).
  apply hash_get_set_neq. intros ->. apply Hnot. now left.
Qed.

Lemma NoDup_fold_set {T} (singles : list (string * T)) (acc : Hash T) :
  NoDup (hash_keys acc) ->
  NoDup (hash_keys (fold_left (fun p n => hash_set p (fst n) (snd n)) singles acc)).
Proof.
  revert acc. induction singles as [|[k v] singles IH]; intros acc Hacc; simpl;
    [exact Hacc|].
  apply IH. now apply NoDup_hash_keys_set.
Qed.

Lemma mapArguments_app before after singles :
  mapArguments (before ++ after) = inr singles ->
  exists singles1 singles2,
    mapArguments before = inr singles1
    /\ mapArguments after = inr singles2
    /\ singles = singles1 ++ singles2.
Proof.
  revert singles. induction before as [|[name value] before IH]; intros singles; simpl.
  - intros ->. now exists [], singles.
  - destruct (parseLiteral true value) as [e|v]; [discriminate|].
    destruct (mapArguments (before ++ after)) as [e|rest] eqn:Hrest; [discriminate|].
    intros [= <-].
    destruct (IH rest eq_refl) as (singles1 & singles2 & -> & -> & ->).
    now exists ((name, v) :: singles1), singles2.
Qed.

Lemma mapArguments_names args singles :
  mapArguments args = inr singles -> map fst singles = map fst args.
Proof.
  revert singles. induction args as [|[name value] args IH]; intros singles; simpl.
  - now intros [= <-].
  - destruct (parseLiteral true value) as [e|v]; [discriminate|].
    destruct (mapArguments args) as [e|rest]; [discriminate|].
    intros [= <-]. simpl. now rewrite (IH rest eq_refl).
Qed.

(** X11: when the arguments of a field decode, the decoded dictionary has each
    argument name once, and under a name it holds the decoded value of the
    last argument of that name. *)
Theorem decodeArguments_last_wins before name value after decoded :
  decodeArguments (Some (before ++ (name, value) :: after)) = inr decoded ->
  ~ In name (map fst after) ->
  NoDup (hash_keys decoded)
  /\ exists v, parseLiteral true value = inr v /\ hash_get decoded name = Some v.
Proof.
  unfold decodeArguments.
  destruct (mapArguments (before ++ (name, value) :: after)) as [e|singles] eqn:Hmap;
    [discriminate|].
  intros [= <-] Hlast. split; [apply NoDup_fold_set; constructor|].
  destruct (mapArguments_app _ _ _ Hmap) as (singles1 & singles2 & _ & Hafter & ->).
  simpl in Hafter.
  destruct (parseLiteral true value) as [e|v]; [discriminate|].
  destruct (mapArguments after) as [e|rest] eqn:Hrest; [discriminate|].
  injection Hafter as <-.
  exists v. split; [reflexivity|].
  rewrite fold_left_app. simpl.
  rewrite hash_get_fold_set by now rewrite (mapArguments_names _ _ Hrest).
  apply hash_get_set_eq.
Qed.

Lemma decodeArguments_last_wins_witness :
  NoDup (hash_keys [("first", Float "20"); ("after", Str "x")])
  /\ exists v,
       parseLiteral true (IntValue "20") = inr v
       /\ hash_get [("first", Float "20"); ("after", Str "x")] "first" = Some v.
Proof.
  apply (decodeArguments_last_wins
           [("first", IntValue "10"); ("after", StringValue "x")]
           "first" (IntValue "20") []
           [("first", Float "20"); ("after", Str "x")]).
  - reflexivity.
  - simpl. tauto.
Defined.

(** ** Fragments *)

(** X12: a fragment adds no level.  If [flattenAST] returns on a node one of
    whose selections is an inline fragment or a fragment spread, it returns
    the same dictionary on a node that has, in place of that selection, the
    selections of the fragment (none for a spread of an unknown fragment). *)
Theorem flattenAST_inlines_fragments fuel info ast ast' before n after obj out :
  isFragment n = true ->
  getSelections ast = before ++ n :: after ->
  getSelections ast' = before ++ getSelections (getAST n info) ++ after ->
  flattenAST fuel ast info obj = Done out ->
  flattenAST fuel ast' info obj = Done out.
Proof.
  intros Hfragment Hsel Hsel' Hrun.
  destruct fuel as [|fuel]; [discriminate|].
  simpl in *. rewrite Hsel in Hrun. rewrite Hsel'.
  rewrite reduce_app in Hrun. rewrite reduce_app.
  apply Fueled_bind_Done in Hrun as [mid [Hbefore Hrun]].
  rewrite Hbefore. simpl in *.
  apply Fueled_bind_Done in Hrun as [mid' [Hstep Hafter]].
  unfold flattenSelection in Hstep at 1. rewrite Hfragment in Hstep.
  rewrite reduce_app.
  destruct fuel as [|fuel]; [discriminate|].
  simpl in Hstep. apply reduce_more_fuel in Hstep.
  now rewrite Hstep.
Qed.

Lemma flattenAST_inlines_fragments_witness :
  flattenAST 4
    (Some (FieldNode "users" None
             (Some [Fixture.profileDirect; Fixture.profileInFragment])))
    Fixture.usersInfo []
  = Done [("profile", mkSelection (Some [("first", Float "10")])
                        (Some [("id", Fixture.leaf); ("name", Fixture.leaf)]))].
Proof.
  apply (flattenAST_inlines_fragments 4 Fixture.usersInfo
           (Some (FieldNode "users" None
                    (Some [Fixture.profileDirect; FragmentSpreadNode "ProfileName"])))
           (Some (FieldNode "users" None
                    (Some [Fixture.profileDirect; Fixture.profileInFragment])))
           [Fixture.profileDirect] (FragmentSpreadNode "ProfileName") [] []).
  - reflexivity.
  - reflexivity.
  - reflexivity.
  - vm_compute. reflexivity.
Defined.

(** X21: when [flattenAST] returns on a selection set, the dictionary it
    returns from the empty one has one key for each name among the fields of
    the level, fragments inlined, and no other key; the node of a name has a
    children map, whose keys are exactly the names of the fields found at the
    level of the selection set of some field of that name: the children of all
    the occurrences, direct or through fragments, and none but theirs. *)
Theorem flattenAST_unions_children_of_all_occurrences fuel info ast out :
  flattenAST fuel ast info [] = Done out ->
  exists fields,
    LevelFields info (getSelections ast) fields
    /\ NoDup (hash_keys out)
    /\ (forall k, In k (hash_keys out) <-> exists f, In f fields /\ nodeName f = k)
    /\ (forall k node,
           hash_get out k = Some node ->
           exists args children,
             node = mkSelection args (Some children)
             /\ forall c, hash_in c children = true
                          <-> ChildOfOccurrence info fields k c).
Proof.
  intros Hrun.
  destruct (flattenAST_inlined _ _ _ _ _ Hrun) as (fuel' & fields & _ & Hlevel & Hrun').
  pose proof (LevelFields_fields _ _ _ Hlevel) as Hfields.
  exists fields. split; [exact Hlevel|]. split; [|split].
  - apply (flattenAST_NoDup_keys _ _ _ _ _ Hrun). constructor.
  - intros k. rewrite <- hash_in_keys, (reduce_fields_keys _ _ _ Hfields _ _ Hrun' k).
    simpl. apply existsb_name_In.
  - exact (flattenAST_level_children _ _ _ _ _ Hrun Hlevel).
Qed.

Lemma flattenAST_unions_children_of_all_occurrences_witness :
  exists fields,
    LevelFields Fixture.usersInfo
      [Fixture.profileDirect; FragmentSpreadNode "ProfileName"] fields
    /\ forall c,
         hash_in c [("id", Fixture.leaf); ("name", Fixture.leaf)] = true
         <-> ChildOfOccurrence Fixture.usersInfo fields "profile" c.
Proof.
  destruct (flattenAST_unions_children_of_all_occurrences 4 Fixture.usersInfo
              (Some (FieldNode "users" None
                       (Some [Fixture.profileDirect; FragmentSpreadNode "ProfileName"])))
              [("profile",
                mkSelection (Some [("first", Float "10")])
                  (Some [("id", Fixture.leaf); ("name", Fixture.leaf)]))])
    as (fields & Hlevel & _ & _ & Hchildren); [vm_compute; reflexivity|].
  exists fields. split; [exact Hlevel|].
  destruct (Hchildren "profile" _ eq_refl) as (args & children & Hnode & Hunion).
  injection Hnode as <- <-. exact Hunion.
Defined.

(** X13: on a fragment whose definition starts by spreading the fragment
    itself, [flattenAST] returns for no number of nested calls: the recursion
    through the fragment dictionary has no cycle check. *)
Theorem flattenAST_cyclic_fragment_never_returns fuel info name definition rest obj :
  hash_get (fragments info) name = Some definition ->
  getSelections (Some definition) = FragmentSpreadNode name :: rest ->
  flattenAST fuel (Some definition) info obj = OutOfFuel.
Proof.
  intros Hget Hselections. revert obj.
  induction fuel as [|fuel IH]; intros obj; [reflexivity|].
  change (flattenAST (S fuel) (Some definition) info obj)
    with (reduce (flattenSelection (flattenAST fuel) info)
            (getSelections (Some definition)) obj).
  rewrite Hselections. cbn [reduce].
  unfold flattenSelection at 1. cbn [isFragment getAST].
  rewrite Hget, IH. reflexivity.
Qed.

Lemma flattenAST_cyclic_fragment_never_returns_witness :
  flattenAST 1000
    (Some (FragmentDefinitionNode "Loop"
             [FragmentSpreadNode "Loop"; FieldNode "id" None None]))
    {| fieldNodes := [];
       fragments :=
         [("Loop", FragmentDefinitionNode "Loop"
                     [FragmentSpreadNode "Loop"; FieldNode "id" None None])] |}
    []
  = OutOfFuel.
Proof.
  apply (flattenAST_cyclic_fragment_never_returns 1000
           {| fieldNodes := [];
              fragments :=
                [("Loop", FragmentDefinitionNode "Loop"
                            [FragmentSpreadNode "Loop"; FieldNode "id" None None])] |}
           "Loop"
           (FragmentDefinitionNode "Loop"
              [FragmentSpreadNode "Loop"; FieldNode "id" None None])
           [FieldNode "id" None None] []).
  - reflexivity.
  - reflexivity.
Defined.

(** ** The dictionary [flattenAST] returns *)

(** X14: [flattenAST] keeps the keys of the dictionary it receives first and
    in their order; the names it adds come after them. *)
Theorem flattenAST_keeps_key_order fuel info ast obj out :
  flattenAST fuel ast info obj = Done out ->
  exists added, hash_keys out = hash_keys obj ++ added.
Proof.
  intros Hrun.
  apply (flattenAST_preserves
           (fun h => exists added, hash_keys h = hash_keys obj ++ added)
           fuel info) with (ast := ast) (obj := obj);
    [|exact Hrun|exists []; now rewrite app_nil_r].
  clear. intros fuel flattened n out _ Hfield Hstep [added Hkeys].
  destruct (flattenSelection_field _ _ _ _ _ Hfield Hstep)
    as [(args & existingChildren & merged & Hget & _ & ->)
       |(decoded & nodeChildren & Hget & _ & _ & ->)].
  - exists added. now rewrite (hash_keys_set_present _ _ _ _ Hget).
  - exists (added ++ [nodeName n]).
    now rewrite (hash_keys_set_absent _ _ _ Hget), Hkeys, app_assoc.
Qed.

Lemma flattenAST_keeps_key_order_witness :
  exists added,
    hash_keys [("profile", mkSelection (Some [])
                             (Some [("id", Fixture.leaf); ("name", Fixture.leaf)]));
               ("id", Fixture.leaf)]
    = hash_keys [("profile", Fixture.leaf)] ++ added.
Proof.
  apply (flattenAST_keeps_key_order 4 Fixture.usersInfo
           (Some (InlineFragmentNode
                    [FieldNode "id" None None; Fixture.profileDirect;
                     FragmentSpreadNode "ProfileName"]))
           [("profile", Fixture.leaf)]).
  vm_compute. reflexivity.
Defined.

Lemma reduce_flattenAST_preserves (P : Hash Selection -> Prop) fuel info nodes :
  (forall ast obj out, flattenAST fuel ast info obj = Done out -> P obj -> P out) ->
  forall obj out,
    reduce (fun o ast => flattenAST fuel (Some ast) info o) nodes obj = Done out ->
    P obj -> P out.
Proof.
  intros Hstep. induction nodes as [|node nodes IH]; intros obj out Hrun Hobj;
    simpl in Hrun.
  - now injection Hrun as <-.
  - apply Fueled_bind_Done in Hrun as [obj' [Hnode Hrun]].
    apply (IH obj' out Hrun). exact (Hstep _ _ _ Hnode Hobj).
Qed.

Lemma graphqlFields_children fuel info obj selection :
  graphqlFields fuel info obj = Done selection ->
  exists children,
    selection = mkSelection None (Some children)
    /\ (AllHaveChildren obj -> AllHaveChildren children)
    /\ (NoDup (hash_keys obj) -> NoDup (hash_keys children)).
Proof.
  unfold graphqlFields. intros Hrun.
  apply Fueled_bind_Done in Hrun as [children [Hrun Hselection]].
  injection Hselection as <-.
  exists children. split; [reflexivity|]. split; intros Hobj.
  - apply (reduce_flattenAST_preserves AllHaveChildren fuel info _
             (fun ast obj out => flattenAST_AllHaveChildren fuel info ast obj out)
             _ _ Hrun Hobj).
  - apply (reduce_flattenAST_preserves (fun h => NoDup (hash_keys h)) fuel info _
             (fun ast obj out => flattenAST_NoDup_keys fuel info ast obj out)
             _ _ Hrun Hobj).
Qed.

(** X15: the selection [graphqlFields] returns has no arguments and a
    children map; when the dictionary it started from has each key once and
    only nodes with children maps below it (the empty dictionary of the
    default has), so has the children map returned: every node of the result
    has a children map, down to the leaves. *)
Theorem graphqlFields_builds_nodes_with_children fuel info obj selection :
  graphqlFields fuel info obj = Done selection ->
  AllHaveChildren obj ->
  NoDup (hash_keys obj) ->
  arguments selection = None
  /\ HasChildren selection
  /\ exists nodes,
       children selection = Some nodes /\ NoDup (hash_keys nodes).
Proof.
  intros Hrun Hall Hnodup.
  destruct (graphqlFields_children _ _ _ _ Hrun) as (ch & -> & Hchildren & Hkeys).
  split; [reflexivity|]. split.
  - constructor. exact (Hchildren Hall).
  - exists ch. split; [reflexivity | exact (Hkeys Hnodup)].
Qed.

Lemma graphqlFields_builds_nodes_with_children_witness :
  HasChildren
    (mkSelection None
       (Some [("profile",
               mkSelection (Some [("first", Float "10")])
                 (Some [("id", Fixture.leaf); ("name", Fixture.leaf)]))])).
Proof.
  apply (graphqlFields_builds_nodes_with_children 4 Fixture.usersInfo []).
  - vm_compute. reflexivity.
  - intros k child. discriminate.
  - constructor.
Defined.

(** X16: the parser and the resolver compose.  A selection that
    [graphqlFields] returns from the empty dictionary is resolved by
    [createQuery] without an exception, for a known entity on a connection
    that knows the target of every relation. *)
Theorem createQuery_returns_on_graphqlFields
    config this fuel info selection model meta connection qb alias context depth :
  graphqlFields fuel info [] = Done selection ->
  Closed connection ->
  getMetadata connection model = Some meta ->
  fst (createQuery config this model (Some selection) connection qb alias context depth)
  = Returned.
Proof.
  intros Hrun Hclosed Hmeta.
  destruct (graphqlFields_children _ _ _ _ Hrun) as (ch & -> & Hchildren & _).
  apply (createQuery_node_returns config this connection _ Hclosed) with (meta := meta);
    [|exact Hmeta].
  constructor. exact (Hchildren AllHaveChildren_nil).
Qed.

Lemma createQuery_returns_on_graphqlFields_witness :
  fst (createQuery Fixture.noPolicy (Fixture.loader Infinity) "Author"
         (Some (mkSelection None
                  (Some [("profile",
                          mkSelection (Some [("first", Float "10")])
                            (Some [("id", Fixture.leaf); ("name", Fixture.leaf)]))])))
         Fixture.connection [] "a" Null 0)
  = Returned.
Proof.
  apply (createQuery_returns_on_graphqlFields Fixture.noPolicy (Fixture.loader Infinity)
           4 Fixture.usersInfo _ "Author" Fixture.Author Fixture.connection
           [] "a" Null 0).
  - vm_compute. reflexivity.
  - exact Fixture_connection_Closed.
  - reflexivity.
Defined.

(** ** Looking a field up by its path *)

Lemma flatSelections_In fieldNodes selections node :
  flatSelections fieldNodes = inr selections ->
  In node selections ->
  exists parent, In (Some parent) fieldNodes /\ In node (selectionsOf parent).
Proof.
  revert selections. induction fieldNodes as [|[parent|] rest IH]; intros selections; simpl.
  - intros [= <-] [].
  - destruct (flatSelections rest) as [e|restSelections]; [discriminate|].
    intros [= <-] Hin. apply in_app_or in Hin as [Hin|Hin].
    + exists parent. auto.
    + destruct (IH _ eq_refl Hin) as [parent' [Hparent Hnode]].
      exists parent'. auto.
  - discriminate.
Qed.

Lemma selectionNamed_true name selection :
  selectionNamed (Some name) selection = true ->
  nodeName selection = name /\ isFragment selection = false \/
  nodeName selection = name /\ exists spread, selection = FragmentSpreadNode spread.
Proof.
  destruct selection as [n a s|s|n|n s]; simpl; try discriminate;
    intros Heq; apply String.eqb_eq in Heq; [left|right|left]; eauto.
Qed.

(** X17: the node [resolveFieldNodePath] returns, when it returns one, carries
    the last name of the path, is no inline fragment, and is one of the
    selections of some node; the path is then not empty. *)
Theorem resolveFieldNodePath_finds_named_selection fieldNames :
  forall fieldNodes node,
    resolveFieldNodePath fieldNodes fieldNames = inr (Some node) ->
    fieldNames <> []
    /\ nodeName node = last fieldNames ""
    /\ (forall selections, node <> InlineFragmentNode selections)
    /\ exists parent, In node (selectionsOf parent).
Proof.
  induction fieldNames as [|fieldName rest IH]; intros fieldNodes node; simpl.
  - destruct (flatSelections fieldNodes) as [e|selections]; [discriminate|].
    intros [= Hfind]. apply find_some in Hfind as [_ Hnamed].
    destruct node; discriminate.
  - destruct (flatSelections fieldNodes) as [e|selections] eqn:Hflat; [discriminate|].
    destruct rest as [|next rest].
    + intros [= Hfind]. apply find_some in Hfind as [Hin Hnamed].
      split; [discriminate|]. split; [|split].
      * destruct node; simpl in Hnamed; try discriminate;
          now apply String.eqb_eq in Hnamed.
      * intros s ->. discriminate.
      * destruct (flatSelections_In _ _ _ Hflat Hin) as [parent [_ Hnode]]. eauto.
    + intros Hrun. destruct (IH _ _ Hrun) as (_ & Hname & Hkind & Hparent).
      split; [discriminate|]. auto.
Qed.

Lemma resolveFieldNodePath_finds_named_selection_witness :
  nodeName Fixture.profileDirect = last ["users"; "profile"] ""
  /\ exists parent, In Fixture.profileDirect (selectionsOf parent).
Proof.
  destruct (resolveFieldNodePath_finds_named_selection ["users"; "profile"]
              [Some (FieldNode "query" None (Some (fieldNodes Fixture.usersInfo)))]
              Fixture.profileDirect eq_refl)
    as (_ & Hname & _ & Hparent).
  split; [exact Hname | exact Hparent].
Defined.

(** X18: when no selection of the given nodes carries the first name of the
    path (fields inside inline fragments and fragment spreads are not looked
    at), [resolveFieldNodePath] returns undefined if the path ends there and
    throws a TypeError if it goes on. *)
Theorem resolveFieldNodePath_missing_name fieldNodes selections fieldName rest :
  flatSelections fieldNodes = inr selections ->
  (forall selection, In selection selections ->
                     selectionNamed (Some fieldName) selection = false) ->
  resolveFieldNodePath fieldNodes (fieldName :: rest)
  = match rest with
    | [] => inr None
    | _ :: _ => inl TypeError
    end.
Proof.
  intros Hflat Hnone. cbn [resolveFieldNodePath]. rewrite Hflat.
  assert (Hfind : find (selectionNamed (Some fieldName)) selections = None).
  { clear Hflat. induction selections as [|selection selections IH]; [reflexivity|].
    simpl. rewrite (Hnone selection (or_introl eq_refl)).
    apply IH. intros s Hs. apply Hnone. now right. }
  rewrite Hfind. destruct rest as [|next rest]; [reflexivity|].
  destruct rest; reflexivity.
Qed.

Lemma resolveFieldNodePath_missing_name_witness :
  resolveFieldNodePath
    [Some (FieldNode "users" None
             (Some [InlineFragmentNode [FieldNode "name" None None]]))]
    ["name"; "first"]
  = inl TypeError.
Proof.
  apply (resolveFieldNodePath_missing_name
           [Some (FieldNode "users" None
                    (Some [InlineFragmentNode [FieldNode "name" None None]]))]
           [InlineFragmentNode [FieldNode "name" None None]] "name" ["first"]).
  - reflexivity.
  - intros selection [<-|[]]. reflexivity.
Defined.

Lemma split_dot_not_nil s : split_dot s <> [].
Proof.
  destruct s as [|c s]; simpl; [discriminate|].
  destruct (Ascii.eqb c "."); [discriminate|].
  destruct (split_dot s); discriminate.
Qed.

Lemma split_dot_app prefix suffix :
  split_dot (prefix ++ "." ++ suffix)%string = split_dot prefix ++ split_dot suffix.
Proof.
  change ("." ++ suffix)%string with (String "."%char suffix).
  induction prefix as [|c prefix IH]; simpl; [reflexivity|].
  destruct (Ascii.eqb c "."); [now rewrite IH|].
  rewrite IH. pose proof (split_dot_not_nil prefix) as Hnil.
  destruct (split_dot prefix); [contradiction | reflexivity].
Qed.

Lemma resolveFieldNodePath_cons fieldNodes fieldName next rest :
  resolveFieldNodePath fieldNodes (fieldName :: next :: rest)
  = match flatSelections fieldNodes with
    | inl e => inl e
    | inr selections =>
        resolveFieldNodePath [find (selectionNamed (Some fieldName)) selections]
          (next :: rest)
    end.
Proof. reflexivity. Qed.

Lemma resolveFieldNodePath_app names :
  forall fieldNodes name names',
    names <> [] ->
    resolveFieldNodePath fieldNodes (names ++ name :: names')
    = match resolveFieldNodePath fieldNodes names with
      | inl e => inl e
      | inr childNode => resolveFieldNodePath [childNode] (name :: names')
      end.
Proof.
  induction names as [|first names IH]; intros fieldNodes name names' Hnames;
    [contradiction|].
  destruct names as [|second names].
  - change ([first] ++ name :: names') with (first :: name :: names').
    rewrite resolveFieldNodePath_cons.
    change (resolveFieldNodePath fieldNodes [first])
      with (match flatSelections fieldNodes with
            | inl e => inl e
            | inr selections =>
                inr (find (selectionNamed (Some first)) selections)
            end : Error + option ASTNode).
    now destruct (flatSelections fieldNodes).
  - change ((first :: second :: names) ++ name :: names')
      with (first :: second :: (names ++ name :: names')).
    rewrite !resolveFieldNodePath_cons.
    destruct (flatSelections fieldNodes) as [e|selections]; [reflexivity|].
    change (second :: names ++ name :: names')
      with ((second :: names) ++ name :: names').
    apply IH. discriminate.
Qed.

(** X19: a dotted path is resolved piece by piece.  [getFieldNode] on
    [prefix ++ "." ++ suffix] is [getFieldNode] on [prefix] followed by the
    lookup of [suffix] from the one node it found; when it found none, that
    lookup throws a TypeError. *)
Theorem getFieldNode_dotted_path info prefix suffix :
  getFieldNode info (prefix ++ "." ++ suffix)%string
  = match getFieldNode info prefix with
    | inl e => inl e
    | inr found =>
        match resolveFieldNodePath (resolved_fieldNodes found) (split_dot suffix) with
        | inl e => inl e
        | inr childFieldNode =>
            inr {| resolved_fieldNodes := [childFieldNode];
                   resolved_fragments := fragments info;
                   resolved_fieldName := (prefix ++ "." ++ suffix)%string |}
        end
    end.
Proof.
  unfold getFieldNode. rewrite split_dot_app.
  pose proof (split_dot_not_nil suffix) as Hsuffix.
  destruct (split_dot suffix) as [|name names'] eqn:Hsplit; [contradiction|].
  rewrite resolveFieldNodePath_app by apply split_dot_not_nil.
  destruct (resolveFieldNodePath (map Some (fieldNodes info)) (split_dot prefix))
    as [e|childNode]; reflexivity.
Qed.

(** ** The primary-key safeguard *)

(** X20: when a [primaryKeyColumn] is configured, [_selectFields] always
    leaves a projection of that name under the alias in the query builder:
    the projection of the selected column of that name, or else the one the
    safeguard adds. *)
Theorem _selectFields_projects_configured_primary_key this qb fields alias pk :
  _primaryKeyColumn this = Some pk ->
  pk <> "" ->
  exists aliasName,
    In (AddSelect (columnSelection (_formatter this) alias pk) (Some aliasName))
      (_selectFields this qb fields alias).
Proof.
  intros Hpk Hnonempty. rewrite _selectFields_app.
  destruct (find (fun field => String.eqb (propertyName field) pk) fields)
    as [field|] eqn:Hfind.
  - apply find_some in Hfind as [Hin Heq]. apply String.eqb_eq in Heq.
    exists (aliasField (_formatter this) alias (databaseName field)).
    apply in_or_app. right. apply in_or_app. right.
    apply in_map_iff. exists field. split; [|exact Hin].
    unfold projectColumn. now rewrite Heq.
  - exists (aliasField (_formatter this) alias pk).
    apply in_or_app. right. apply in_or_app. left.
    rewrite (_selectPrimaryKey_safeguard this fields alias pk Hpk Hnonempty).
    + now left.
    + intros field Hin Heq.
      apply (find_none _ _ Hfind) in Hin. apply String.eqb_neq in Hin. contradiction.
Qed.

Lemma _selectFields_projects_configured_primary_key_witness :
  exists aliasName,
    In (AddSelect "b.id" (Some aliasName))
      (_selectFields (Fixture.loaderWithPrimaryKey "id") [LeftJoin "a.books" "b"]
         [Fixture.column "title" false] "b").
Proof.
  apply (_selectFields_projects_configured_primary_key
           (Fixture.loaderWithPrimaryKey "id") [LeftJoin "a.books" "b"]
           [Fixture.column "title" false] "b" "id").
  - reflexivity.
  - discriminate.
Defined.
